(** * twitter-scraper: a shallow embedding of the crawl core

    The development follows the layout of the repository:
    - [Store]     : models.py, crud/accounts.py, crud/tweets.py
    - [Scraper]   : scraper/service.py (scraper/fetch.py carries the same
                    [scrape_tweets] body, up to the wording of its messages)
    - [Scheduler] : main.py (the lock, the cool-down and the staggering)

    Tables are lists of rows in insertion order, so that [.first()] is
    [List.find]; the set [seen_texts] is a [gset string]; the browser page is
    an oracle record that answers the calls the code makes on it. *)

From Stdlib Require Import ZArith Lia List String Ascii Bool.
From stdpp Require Import base list strings gmap sets sorting.

Local Open Scope string_scope.
Local Open Scope Z_scope.

(** Points in time ([datetime] objects), in seconds. *)
Definition datetime := Z.

(* ===================================================================== *)
(** ** models.py and crud/ *)
(* ===================================================================== *)

Module Store.

(** [class Account]: [id], [username]. *)
Record Account := mkAccount {
  account_id : Z;
  username : string
}.

(** [class Tweet]: [id], [account_id], [content], [timestamp], [read]. *)
Record Tweet := mkTweet {
  tweet_id : Z;
  tweet_account_id : Z;
  content : string;
  timestamp : datetime;
  read : bool
}.

(** The database behind a [Session]: the two tables. *)
Record DB := mkDB {
  accounts : list Account;
  tweets : list Tweet
}.

Definition empty_db : DB := mkDB [] [].

(** Integer primary keys are allocated as one more than the largest key in
    the table (SQLite's rowid rule), starting from 1. *)
Definition fresh_id (ids : list Z) : Z := 1 + foldr Z.max 0 ids.

(** [get_account]: [db.query(Account).filter(username == u).first()]. *)
Definition get_account (db : DB) (u : string) : option Account :=
  List.find (fun a => String.eqb (username a) u) (accounts db).

(** [create_account]: add a row, commit, return the refreshed object. *)
Definition create_account (db : DB) (u : string) : DB * Account :=
  let account := mkAccount (fresh_id (map account_id (accounts db))) u in
  (mkDB (accounts db ++ [account]) (tweets db), account).

(** [list_accounts]: [db.query(Account).all()]. *)
Definition list_accounts (db : DB) : list Account := accounts db.

(** [delete_account]: the ORM cascade removes the account's tweets. *)
Definition delete_account (db : DB) (u : string) : DB :=
  match get_account db u with
  | Some account =>
      mkDB (List.filter (fun a => negb (Z.eqb (account_id a) (account_id account))) (accounts db))
           (List.filter (fun t => negb (Z.eqb (tweet_account_id t) (account_id account))) (tweets db))
  | None => db
  end.

(** [create_tweet]: [timestamp or datetime.utcnow()], [read] defaults to
    [False]. *)
Definition create_tweet (db : DB) (account : Account) (c : string)
    (ts : option datetime) (utcnow : datetime) : DB * Tweet :=
  let tweet := mkTweet (fresh_id (map tweet_id (tweets db))) (account_id account) c
                       (match ts with Some t => t | None => utcnow end) false in
  (mkDB (accounts db) (tweets db ++ [tweet]), tweet).

(** The filter of [tweet_exists]. *)
Definition same_pair (aid : Z) (c : string) (t : Tweet) : bool :=
  Z.eqb (tweet_account_id t) aid && String.eqb (content t) c.

(** [tweet_exists]: [... .first() is not None]. *)
Definition tweet_exists (db : DB) (account : Account) (c : string) : bool :=
  match List.find (same_pair (account_id account) c) (tweets db) with
  | Some _ => true
  | None => false
  end.

(** How many rows carry the pair (account, content). *)
Definition rows_for (db : DB) (aid : Z) (c : string) : nat :=
  length (List.filter (same_pair aid c) (tweets db)).

Definition set_read (r : bool) (t : Tweet) : Tweet :=
  mkTweet (tweet_id t) (tweet_account_id t) (content t) (timestamp t) r.

(** The values an [INTEGER] of SQLite holds: signed, 64 bits. *)
Definition INT64_MIN : Z := - 2 ^ 63.
Definition INT64_MAX : Z := 2 ^ 63 - 1.

Definition fits_int64 (n : Z) : bool := (INT64_MIN <=? n) && (n <=? INT64_MAX).

(** How a call that binds an integer of the caller into a query ends: with
    its value, or with the [OverflowError] the SQLite driver raises for a
    Python [int] that does not fit an [INTEGER], before the statement is
    run. *)
Inductive result (A : Type) :=
| Returns (a : A)
| OverflowError.
Arguments Returns {A} a.
Arguments OverflowError {A}.

(** [update_read_status]: look the row up by primary key, which raises for
    a key outside the 64-bit range; when there is no such row return [None]
    before touching anything, otherwise write the flag of the row(s)
    carrying that key and return the refreshed object. *)
Definition update_read_status (db : DB) (tid : Z) (r : bool)
    : DB * result (option Tweet) :=
  if fits_int64 tid then
    match List.find (fun t => Z.eqb (tweet_id t) tid) (tweets db) with
    | None => (db, Returns None)
    | Some tweet =>
        (mkDB (accounts db)
              (map (fun t => if Z.eqb (tweet_id t) tid then set_read r t else t) (tweets db)),
         Returns (Some (set_read r tweet)))
    end
  else (db, OverflowError).

(** The rows of the join with [Account] whose account has username [u]. *)
Definition of_account (db : DB) (u : string) (t : Tweet) : bool :=
  existsb (fun a => Z.eqb (account_id a) (tweet_account_id t) && String.eqb (username a) u)
          (accounts db).

(** [Tweet.timestamp.desc()]. *)
Definition newer_first (a b : Tweet) : Prop := timestamp b <= timestamp a.

#[global] Instance newer_first_dec : RelDecision newer_first :=
  fun a b => decide (timestamp b <= timestamp a).

(** What [list_tweets] keeps: [if account_username:] skips the filter for
    [None] and for the empty string, [if read is not None:] only for
    [None]. *)
Definition selected (db : DB) (account_username : option string) (r : option bool)
    (t : Tweet) : bool :=
  match account_username with
  | None => true
  | Some u => if String.eqb u "" then true else of_account db u t
  end &&
  match r with
  | None => true
  | Some b => Bool.eqb (read t) b
  end.

(** [list_tweets]: the optional filters, then [order_by(timestamp.desc())].
    The order among equal timestamps is the sort's. *)
Definition list_tweets (db : DB) (account_username : option string) (r : option bool)
    : list Tweet :=
  let query := tweets db in
  let query :=
    match account_username with
    | None => query
    | Some u => if String.eqb u "" then query else List.filter (of_account db u) query
    end in
  let query :=
    match r with
    | None => query
    | Some b => List.filter (fun t => Bool.eqb (read t) b) query
    end in
  merge_sort newer_first query.

(** What the schema promises of the tables: primary keys and usernames are
    unique, and every tweet belongs to an account. *)
Record consistent (db : DB) : Prop := mkConsistent {
  account_ids_unique : NoDup (map account_id (accounts db));
  usernames_unique : NoDup (map username (accounts db));
  tweet_ids_unique : NoDup (map tweet_id (tweets db));
  tweets_owned : forall t, In t (tweets db) ->
                 exists a, In a (accounts db) /\ account_id a = tweet_account_id t
}.

(** No two rows share (account, content). *)
Definition distinct_pairs (db : DB) : Prop :=
  forall aid c, (rows_for db aid c <= 1)%nat.

End Store.

(* ===================================================================== *)
(** ** scraper/service.py *)
(* ===================================================================== *)

Module Scraper.

(** *** The credentials file *)

#[local] Set Warnings "-register-all".

(** Values produced by [json.load]. *)
Inductive json :=
| JNull
| JBool (b : bool)
| JNumber (n : Z)
| JString (s : string)
| JArray (items : list json)
| JObject (members : list (string * json)).

(** What the bytes of a file amount to for [json.load]. The serialisation
    itself is not modelled: a file written by [json.dump v] reads back as
    [v]. *)
Inductive file_contents :=
| NotJSON
| JSONText (data : json).

(** ["cookies" in data] for a dict. *)
Definition has_key (k : string) (members : list (string * json)) : bool :=
  existsb (fun kv => String.eqb (fst kv) k) members.

(** *** Errors and effects *)

(** The ways [scrape_tweets] fails. The four [RuntimeError]s are told apart
    by the names the specification gives them; [PWTimeoutError] and [PWError]
    are Playwright's, [JSONDecodeError] is [json.load]'s. *)
Inductive Error :=
| CredentialsMissing
| JSONDecodeError
| CredentialsMalformed
| PWTimeoutError
| PWError
| AuthChallenge (final_url dump_html screenshot_path : string)
| NoContentFound (dump_html screenshot_path : string).

(** Calls with an effect outside the process, in the order they are made. *)
Inductive event :=
| PlaywrightStart
| Launch
| NewContext (storage_state : string)
| NewPage
| Goto (url : string)
| Sleep (seconds : Z)
| WaitForTimeout (ms : Z)
| PageContent
| WriteFile (path text : string)
| Screenshot (path : string)
| WaitForSelector (selector : string)
| BrowserClose
| PlaywrightStop.

(** The part of the world [scrape_tweets] changes: the credentials file and
    the trace of calls. *)
Record World := mkWorld {
  cookie_file : option file_contents;
  trace : list event
}.

(** Whether a browser started by [p.chromium.launch] has not been closed by
    a [browser.close()] since: the two calls are the only ones that count,
    the first value being the state before the trace. *)
Fixpoint session_open_from (open : bool) (tr : list event) : bool :=
  match tr with
  | [] => open
  | Launch :: tr' => session_open_from true tr'
  | BrowserClose :: tr' => session_open_from false tr'
  | _ :: tr' => session_open_from open tr'
  end.

Definition session_open (tr : list event) : bool := session_open_from false tr.


(** The paths of the diagnostic dumps written through [f.write(html_dump)],
    and of the screenshots taken. The credentials file is not among these
    calls: what [json.dump] leaves in it is the [cookie_file] of the world. *)
Definition written_files (tr : list event) : list string :=
  flat_map (fun e => match e with WriteFile path _ => [path] | _ => [] end) tr.

Definition screenshots (tr : list event) : list string :=
  flat_map (fun e => match e with Screenshot path => [path] | _ => [] end) tr.

(** The URLs of the [page.goto] calls. *)
Definition gotos (tr : list event) : list string :=
  flat_map (fun e => match e with Goto url => [url] | _ => [] end) tr.

(** How a call ends. [OutOfFuel] is not a Python outcome: it marks a run of
    the model whose pagination loop was cut after the given number of
    iterations. *)
Inductive outcome (A : Type) :=
| Ok (a : A)
| Raise (e : Error)
| OutOfFuel.
Arguments Ok {A} a.
Arguments Raise {A} e.
Arguments OutOfFuel {A}.

(** State and exceptions threaded through the body of [scrape_tweets]. *)
Definition M (A : Type) : Type := World -> World * outcome A.

Definition ret {A} (a : A) : M A := fun w => (w, Ok a).
Definition raise {A} (e : Error) : M A := fun w => (w, Raise e).
Definition bind {A B} (m : M A) (k : A -> M B) : M B :=
  fun w => match m w with
           | (w', Ok a) => k a w'
           | (w', Raise e) => (w', Raise e)
           | (w', OutOfFuel) => (w', OutOfFuel)
           end.

Notation "x <- m ;; k" := (bind m (fun x => k))
  (at level 100, m at level 99, right associativity).
Notation "m ;;; k" := (bind m (fun _ => k))
  (at level 100, right associativity).

Definition emit (e : event) : M unit :=
  fun w => (mkWorld (cookie_file w) (trace w ++ [e]), Ok tt).

(** [try: m except PWTimeoutError: handler]. *)
Definition except_timeout {A} (m : M A) (handler : M A) : M A :=
  fun w => match m w with
           | (w', Raise PWTimeoutError) => handler w'
           | r => r
           end.

(** [async with async_playwright() as p: body]: the driver is stopped on
    every way out of the body. *)
Definition async_with_playwright {A} (body : M A) : M A :=
  fun w => match (emit PlaywrightStart ;;; body) w with
           | (w', r) => (mkWorld (cookie_file w') (trace w' ++ [PlaywrightStop]), r)
           end.

(** *** The page, as the code sees it *)

Inductive attempt (A : Type) :=
| Raises
| Gives (a : A).
Arguments Raises {A}.
Arguments Gives {A} a.

Definition attempt_bind {A B} (m : attempt A) (k : A -> attempt B) : attempt B :=
  match m with
  | Raises => Raises
  | Gives a => k a
  end.

(** Element handles: each call on one may raise. *)
Record TextEl := mkTextEl { inner_text : attempt string }.
Record TimeEl := mkTimeEl { get_attribute_datetime : attempt (option string) }.
Record Block := mkBlock {
  query_tweetText : attempt (option TextEl);
  query_div_lang : attempt (option TextEl);
  query_time : attempt (option TimeEl)
}.

Inductive goto_result :=
| GotoDone
| GotoTimeout
| GotoFailed.

(** One turn of the pagination loop: what [query_selector_all] returns, and
    [document.body.scrollHeight] after the scroll and the two-second wait. *)
Record Observation := mkObservation {
  tweet_blocks : list Block;
  new_height : Z
}.

Record Page := mkPage {
  goto_first : goto_result;
  goto_retry : goto_result;
  page_url : string;
  page_content : string;
  selector_appears : bool;
  initial_height : Z;
  observe : nat -> Observation
}.

(** [{"content": ..., "timestamp": ...}]. *)
Record TweetDict := mkTweetDict {
  content : string;
  timestamp : datetime
}.

(** [needle in haystack] for strings. *)
Fixpoint contains (needle haystack : string) : bool :=
  String.prefix needle haystack ||
  match haystack with
  | EmptyString => false
  | String _ rest => contains needle rest
  end.

(** [ts_str.replace("Z", "+00:00")]. *)
Fixpoint replace_Z (s : string) : string :=
  match s with
  | EmptyString => EmptyString
  | String c rest =>
      if Ascii.eqb c "Z"%char then "+00:00" ++ replace_Z rest
      else String c (replace_Z rest)
  end.

Definition X_SEARCH_URL (u : string) : string :=
  "https://x.com/search?q=from%3A" ++ u ++ "&f=live".

Definition MAX_TWEETS_PER_FETCH : Z := 20.

Definition TWEET_SELECTOR : string := "article[data-testid='tweet']".

Definition len {A} (l : list A) : Z := Z.of_nat (length l).

Section WithLibrary.

(** [os.path.dirname(os.path.abspath(__file__))], [str.strip] and
    [datetime.fromisoformat] ([None] when it raises [ValueError]). *)
Variable THIS_DIR : string.
Variable strip : string -> string.
Variable fromisoformat : string -> option datetime.

Definition path_join (dir name : string) : string := dir ++ "/" ++ name.

Definition COOKIES_FILE : string := path_join THIS_DIR "auth.json".

(** Step 1: the credentials file. A bare list is wrapped and written back. *)
Definition load_credentials : M unit :=
  fun w =>
    match cookie_file w with
    | None => (w, Raise CredentialsMissing)
    | Some NotJSON => (w, Raise JSONDecodeError)
    | Some (JSONText data) =>
        match data with
        | JArray _ =>
            let data' := JObject [("cookies", data); ("origins", JArray [])] in
            (mkWorld (Some (JSONText data')) (trace w), Ok tt)
        | JObject members =>
            if has_key "cookies" members then (w, Ok tt)
            else (w, Raise CredentialsMalformed)
        | _ => (w, Raise CredentialsMalformed)
        end
    end.

(** The session-state shape a bare list of cookies is wrapped into. *)
Definition storage_state (cookies : list json) : json :=
  JObject [("cookies", JArray cookies); ("origins", JArray [])].

(** Whether [load_credentials] goes through the rewriting branch. *)
Definition takes_rewrite_branch (w : World) : bool :=
  match cookie_file w with
  | Some (JSONText (JArray _)) => true
  | _ => false
  end.

Definition goto (r : goto_result) (url : string) : M unit :=
  emit (Goto url) ;;;
  match r with
  | GotoDone => ret tt
  | GotoTimeout => raise PWTimeoutError
  | GotoFailed => raise PWError
  end.

(** Step 4: navigate, retrying once after a timeout. *)
Definition navigate (pg : Page) (url : string) : M unit :=
  except_timeout (goto (goto_first pg) url)
                 (emit (Sleep 2) ;;; goto (goto_retry pg) url).

(** The calls [navigate] makes, and whether it gets to the page. *)
Definition navigation_events (pg : Page) (url : string) : list event :=
  match goto_first pg with
  | GotoTimeout => [Goto url; Sleep 2; Goto url]
  | _ => [Goto url]
  end.

Definition navigation_succeeds (pg : Page) : bool :=
  match goto_first pg with
  | GotoDone => true
  | GotoTimeout => match goto_retry pg with GotoDone => true | _ => false end
  | GotoFailed => false
  end.

(** The HTML dump and the full-page screenshot; returns the two paths. *)
Definition dump_diagnostics (pg : Page) (u suffix : string) : M (string * string) :=
  emit PageContent ;;;
  let dump_html := path_join THIS_DIR (u ++ suffix ++ ".html") in
  emit (WriteFile dump_html (page_content pg)) ;;;
  let screenshot_path := path_join THIS_DIR (u ++ suffix ++ ".png") in
  emit (Screenshot screenshot_path) ;;;
  ret (dump_html, screenshot_path).

(** The body of the [try] around one block: [Raises] is the case that ends
    in [except Exception: continue]. *)
Definition scan_block (b : Block) (tweets : list TweetDict) (seen_texts : gset string)
    : attempt (list TweetDict * gset string) :=
  attempt_bind (query_tweetText b) (fun text_el =>
  attempt_bind (match text_el with
                | None => query_div_lang b
                | Some _ => Gives text_el
                end) (fun text_el =>
  attempt_bind (query_time b) (fun time_el =>
  match text_el, time_el with
  | Some text_el, Some time_el =>
      attempt_bind (inner_text text_el) (fun raw =>
      let c := strip raw in
      attempt_bind (get_attribute_datetime time_el) (fun ts_str =>
      attempt_bind (match ts_str with
                    | None => Raises
                    | Some s => match fromisoformat (replace_Z s) with
                                | None => Raises
                                | Some t => Gives t
                                end
                    end) (fun ts =>
      if decide (c ∈ seen_texts) then Gives (tweets, seen_texts)
      else Gives ((tweets ++ [mkTweetDict c ts])%list, {[c]} ∪ seen_texts))))
  | _, _ => Gives (tweets, seen_texts)
  end))).

(** What the [try] body reads from a block before it looks at
    [seen_texts]: [Raises] when a call raises, [Gives None] when the text or
    the time element is missing, else the item. [scan_block_reads] below
    shows that [scan_block] is this reading followed by the test on
    [seen_texts]. *)
Definition block_item (b : Block) : attempt (option TweetDict) :=
  attempt_bind (query_tweetText b) (fun text_el =>
  attempt_bind (match text_el with
                | None => query_div_lang b
                | Some _ => Gives text_el
                end) (fun text_el =>
  attempt_bind (query_time b) (fun time_el =>
  match text_el, time_el with
  | Some text_el, Some time_el =>
      attempt_bind (inner_text text_el) (fun raw =>
      attempt_bind (get_attribute_datetime time_el) (fun ts_str =>
      match ts_str with
      | None => Raises
      | Some s => match fromisoformat (replace_Z s) with
                  | None => Raises
                  | Some t => Gives (Some (mkTweetDict (strip raw) t))
                  end
      end))
  | _, _ => Gives None
  end))).

(** [for block in tweet_blocks], with its [break]. *)
Fixpoint scan_blocks (blocks : list Block) (max_tweets : Z)
    (tweets : list TweetDict) (seen_texts : gset string)
    : list TweetDict * gset string :=
  match blocks with
  | [] => (tweets, seen_texts)
  | b :: rest =>
      match scan_block b tweets seen_texts with
      | Raises => scan_blocks rest max_tweets tweets seen_texts
      | Gives (tweets', seen') =>
          if max_tweets <=? len tweets' then (tweets', seen')
          else scan_blocks rest max_tweets tweets' seen'
      end
  end.

(** An item that some block of the first [turns] turns of the loop reads. *)
Definition shown (pg : Page) (turns : nat) (t : TweetDict) : Prop :=
  exists i b, (i < turns)%nat /\ In b (tweet_blocks (observe pg i)) /\
              block_item b = Gives (Some t).

(** Whether a block reads an item. *)
Definition has_item (b : Block) : bool :=
  match block_item b with
  | Gives (Some _) => true
  | _ => false
  end.

(** One pass through the body of [while len(tweets) < max_tweets]. *)
Inductive turn :=
| Break (tweets : list TweetDict)
| Again (last_height : Z) (tweets : list TweetDict) (seen_texts : gset string).

Definition loop_body (o : Observation) (max_tweets last_height : Z)
    (tweets : list TweetDict) (seen_texts : gset string) : turn :=
  let '(tweets', seen') := scan_blocks (tweet_blocks o) max_tweets tweets seen_texts in
  if max_tweets <=? len tweets' then Break tweets'
  else if new_height o =? last_height then Break tweets'
  else Again (new_height o) tweets' seen'.

(** Step 7: the pagination loop, from its [i]-th turn on. [None]: more than
    [fuel] turns are needed. *)
Fixpoint scroll_loop (fuel : nat) (pg : Page) (i : nat) (max_tweets last_height : Z)
    (tweets : list TweetDict) (seen_texts : gset string) : option (list TweetDict) :=
  if len tweets <? max_tweets then
    match fuel with
    | O => None
    | S fuel' =>
        match loop_body (observe pg i) max_tweets last_height tweets seen_texts with
        | Break tweets' => Some tweets'
        | Again h tweets' seen' => scroll_loop fuel' pg (S i) max_tweets h tweets' seen'
        end
    end
  else Some tweets.

(** The loop variables at the start of turn [k], when the loop gets there. *)
Fixpoint loop_state_at (k : nat) (pg : Page) (i : nat) (max_tweets last_height : Z)
    (tweets : list TweetDict) (seen_texts : gset string)
    : option (Z * list TweetDict * gset string) :=
  if len tweets <? max_tweets then
    match k with
    | O => Some (last_height, tweets, seen_texts)
    | S k' =>
        match loop_body (observe pg i) max_tweets last_height tweets seen_texts with
        | Break _ => None
        | Again h tweets' seen' => loop_state_at k' pg (S i) max_tweets h tweets' seen'
        end
    end
  else None.

Definition collect (fuel : nat) (pg : Page) (max_tweets : Z) : M (list TweetDict) :=
  fun w => match scroll_loop fuel pg 0 max_tweets (initial_height pg) [] ∅ with
           | Some tweets => (w, Ok tweets)
           | None => (w, OutOfFuel)
           end.

(** What happens inside [async with async_playwright() as p]. *)
Definition browse (fuel : nat) (pg : Page) (u : string) (max_tweets : Z)
    : M (list TweetDict) :=
  let url := X_SEARCH_URL u in
  emit Launch ;;;
  emit (NewContext COOKIES_FILE) ;;;
  emit NewPage ;;;
  navigate pg url ;;;
  emit (WaitForTimeout 5000) ;;;
  let final_url := page_url pg in
  if contains "login" final_url || contains "challenge" final_url then
    paths <- dump_diagnostics pg u "_redirect" ;;
    emit BrowserClose ;;;
    raise (AuthChallenge final_url (fst paths) (snd paths))
  else
    emit (WaitForSelector TWEET_SELECTOR) ;;;
    (if selector_appears pg then ret tt
     else
       paths <- dump_diagnostics pg u "_no_tweets" ;;
       emit BrowserClose ;;;
       raise (NoContentFound (fst paths) (snd paths))) ;;;
    tweets <- collect fuel pg max_tweets ;;
    emit BrowserClose ;;;
    ret tweets.

(** [scrape_tweets(username, max_tweets)]. *)
Definition scrape_tweets (fuel : nat) (pg : Page) (u : string) (max_tweets : Z)
    : M (list TweetDict) :=
  load_credentials ;;;
  async_with_playwright (browse fuel pg u max_tweets).

(** The same function read off branch by branch: the calls made inside
    [async with] and how the block is left. [browse_calls_correct] below shows
    that this is what [browse] does. *)
Definition navigation_error (pg : Page) : option Error :=
  match goto_first pg with
  | GotoDone => None
  | GotoFailed => Some PWError
  | GotoTimeout =>
      match goto_retry pg with
      | GotoDone => None
      | GotoTimeout => Some PWTimeoutError
      | GotoFailed => Some PWError
      end
  end.

Definition diagnostics_events (pg : Page) (u suffix : string) : list event :=
  [PageContent;
   WriteFile (path_join THIS_DIR (u ++ suffix ++ ".html")) (page_content pg);
   Screenshot (path_join THIS_DIR (u ++ suffix ++ ".png"))].

Definition browse_calls (fuel : nat) (pg : Page) (u : string) (max_tweets : Z)
    : list event * outcome (list TweetDict) :=
  let opened := ([Launch; NewContext COOKIES_FILE; NewPage]
                 ++ navigation_events pg (X_SEARCH_URL u))%list in
  match navigation_error pg with
  | Some e => (opened, Raise e)
  | None =>
      if contains "login" (page_url pg) || contains "challenge" (page_url pg) then
        ((opened ++ [WaitForTimeout 5000] ++ diagnostics_events pg u "_redirect"
            ++ [BrowserClose])%list,
         Raise (AuthChallenge (page_url pg)
                  (path_join THIS_DIR (u ++ "_redirect" ++ ".html"))
                  (path_join THIS_DIR (u ++ "_redirect" ++ ".png"))))
      else if selector_appears pg then
        match scroll_loop fuel pg 0 max_tweets (initial_height pg) [] ∅ with
        | Some tweets =>
            ((opened ++ [WaitForTimeout 5000; WaitForSelector TWEET_SELECTOR; BrowserClose])%list,
             Ok tweets)
        | None =>
            ((opened ++ [WaitForTimeout 5000; WaitForSelector TWEET_SELECTOR])%list, OutOfFuel)
        end
      else
        ((opened ++ [WaitForTimeout 5000; WaitForSelector TWEET_SELECTOR]
            ++ diagnostics_events pg u "_no_tweets" ++ [BrowserClose])%list,
         Raise (NoContentFound (path_join THIS_DIR (u ++ "_no_tweets" ++ ".html"))
                               (path_join THIS_DIR (u ++ "_no_tweets" ++ ".png"))))
  end.

Definition extend (w : World) (evs : list event) : World :=
  mkWorld (cookie_file w) (trace w ++ evs).

(** Several calls in a row, each with its own page and arguments; the world
    after the last one. *)
Fixpoint scrape_runs (runs : list (nat * Page * string * Z)) (w : World) : World :=
  match runs with
  | [] => w
  | (fuel, pg, u, max_tweets) :: later =>
      scrape_runs later (fst (scrape_tweets fuel pg u max_tweets w))
  end.

(** [seen_texts] covers what has been collected, and nothing was collected
    twice. *)
Definition deduplicated (tweets : list TweetDict) (seen_texts : gset string) : Prop :=
  NoDup (map content tweets) /\ forall t, In t tweets -> content t ∈ seen_texts.

(** Whether a batch holds an item with content [c]. *)
Definition mentions (c : string) (new : list TweetDict) : bool :=
  existsb (fun t => String.eqb (content t) c) new.

(** The [for t in new] loop of [runner]. *)
Fixpoint store_new (db : Store.DB) (account : Store.Account) (new : list TweetDict)
    (utcnow : datetime) (count : nat) : Store.DB * nat :=
  match new with
  | [] => (db, count)
  | t :: rest =>
      if Store.tweet_exists db account (content t) then
        store_new db account rest utcnow count
      else
        store_new (fst (Store.create_tweet db account (content t) (Some (timestamp t)) utcnow))
                  account rest utcnow (S count)
  end.

(** [runner] after the scrape: resolve or create the account, then store
    what is new. *)
Definition ingest (db : Store.DB) (u : string) (new : list TweetDict)
    (utcnow : datetime) : Store.DB * nat :=
  let '(db1, account) :=
    match Store.get_account db u with
    | Some a => (db, a)
    | None => Store.create_account db u
    end in
  store_new db1 account new utcnow 0.

(** A row as the loop of [runner] stores it: it belongs to the account,
    starts unread and carries the content and the timestamp of an item of
    the batch. *)
Definition from_batch (a : Store.Account) (new : list TweetDict) (t : Store.Tweet) : Prop :=
  Store.tweet_account_id t = Store.account_id a /\ Store.read t = false /\
  exists item, In item new /\
    Store.content t = content item /\ Store.timestamp t = timestamp item.

(** [fetch_and_store_tweets(username, limit)]. *)
Definition fetch_and_store_tweets (fuel : nat) (pg : Page) (u : string) (limit : Z)
    (utcnow : datetime) (w : World) (db : Store.DB) : World * Store.DB * outcome nat :=
  match scrape_tweets fuel pg u limit w with
  | (w', Ok new) =>
      let '(db', count) := ingest db u new utcnow in (w', db', Ok count)
  | (w', Raise e) => (w', db, Raise e)
  | (w', OutOfFuel) => (w', db, OutOfFuel)
  end.

End WithLibrary.

End Scraper.

(* ===================================================================== *)
(** ** main.py *)
(* ===================================================================== *)

Module Scheduler.

(** *** [scrape_account_threadsafe] on the executor, under [scrape_lock] *)

(** [time.sleep(60)], in seconds. *)
Definition COOLDOWN : Z := 60.

(** [ThreadPoolExecutor(max_workers=1)]. *)
Definition MAX_WORKERS : nat := 1.

(** Where one call of [scrape_account_threadsafe] stands:
    - [Queued]: submitted, still in the executor's queue;
    - [Waiting]: on a worker, blocked at [with scrape_lock];
    - [Crawling]: inside [try], running [fetch_and_store_tweets];
    - [CoolingDown wake]: in [finally], asleep until at least [wake];
    - [Finished]: the lock is released and the call has returned. *)
Inductive pc :=
| Queued
| Waiting
| Crawling
| CoolingDown (wake : Z)
| Finished.

Record Call := mkCall {
  call_username : string;
  call_pc : pc
}.

(** The start and the end of the work of a crawl (the end is reached on
    success and through [except Exception] alike). *)
Inductive crawl_event :=
| Started (call : nat) (time : Z)
| Ended (call : nat) (time : Z).

(** The clock, the lock with its owner, every call submitted so far (a call is
    named by its position) and the crawl events, newest first. *)
Record System := mkSystem {
  now : Z;
  lock : option nat;
  calls : list Call;
  history : list crawl_event
}.

Definition initial (t0 : Z) : System := mkSystem t0 None [] [].

Definition on_worker (c : Call) : bool :=
  match call_pc c with
  | Waiting | Crawling | CoolingDown _ => true
  | Queued | Finished => false
  end.

Definition is_queued (c : Call) : bool :=
  match call_pc c with
  | Queued => true
  | _ => false
  end.

Definition set_pc (s : System) (i : nat) (p : pc) : list Call :=
  match calls s !! i with
  | Some c => <[i := mkCall (call_username c) p]> (calls s)
  | None => calls s
  end.

Definition pc_at (s : System) (i : nat) : option pc := call_pc <$> calls s !! i.

(** The interleavings of the calls with a pool of [max_workers] threads. *)
Inductive step (max_workers : nat) : System -> System -> Prop :=
| step_tick s d :
    0 <= d ->
    step max_workers s (mkSystem (now s + d) (lock s) (calls s) (history s))
| step_submit s u :
    step max_workers s (mkSystem (now s) (lock s) (calls s ++ [mkCall u Queued]) (history s))
| step_dequeue s i :
    pc_at s i = Some Queued ->
    forallb (fun c => negb (is_queued c)) (take i (calls s)) = true ->
    (length (List.filter on_worker (calls s)) < max_workers)%nat ->
    step max_workers s (mkSystem (now s) (lock s) (set_pc s i Waiting) (history s))
| step_acquire s i :
    pc_at s i = Some Waiting ->
    lock s = None ->
    step max_workers s
      (mkSystem (now s) (Some i) (set_pc s i Crawling) (Started i (now s) :: history s))
| step_crawl_over s i :
    pc_at s i = Some Crawling ->
    step max_workers s
      (mkSystem (now s) (lock s) (set_pc s i (CoolingDown (now s + COOLDOWN)))
                (Ended i (now s) :: history s))
| step_release s i wake :
    pc_at s i = Some (CoolingDown wake) ->
    wake <= now s ->
    step max_workers s (mkSystem (now s) None (set_pc s i Finished) (history s)).

Inductive reachable (max_workers : nat) (t0 : Z) : System -> Prop :=
| reachable_initial : reachable max_workers t0 (initial t0)
| reachable_step s s' :
    reachable max_workers t0 s -> step max_workers s s' -> reachable max_workers t0 s'.

(** Every crawl start in the history (newest first) comes at least the
    cool-down after each crawl end that precedes it. *)
Fixpoint spaced (h : list crawl_event) : Prop :=
  match h with
  | [] => True
  | Started _ t2 :: older =>
      (forall j t1, In (Ended j t1) older -> t1 + COOLDOWN <= t2) /\ spaced older
  | Ended _ _ :: older => spaced older
  end.

(** A call that is inside [with scrape_lock]. *)
Definition in_lock (p : pc) : Prop :=
  match p with
  | Crawling | CoolingDown _ => True
  | _ => False
  end.

Definition event_time (e : crawl_event) : Z :=
  match e with
  | Started _ t | Ended _ t => t
  end.

(** What every reachable state satisfies: a call inside the lock owns it, the
    history lies in the past, a free lock or a sleeping call means the
    cool-down after every ended crawl is (or will be) over, and the history
    is spaced. *)
Record invariant (s : System) : Prop := mkInvariant {
  inv_owner : forall i c, calls s !! i = Some c -> in_lock (call_pc c) -> lock s = Some i;
  inv_past : forall e, In e (history s) -> event_time e <= now s;
  inv_free : lock s = None -> forall j t, In (Ended j t) (history s) -> t + COOLDOWN <= now s;
  inv_sleep : forall i c wake, calls s !! i = Some c -> call_pc c = CoolingDown wake ->
              forall j t, In (Ended j t) (history s) -> t + COOLDOWN <= wake;
  inv_spaced : spaced (history s)
}.

(** *** The staggering: [auto_fetch_all] and [scrape_accounts_sequentially] *)

(** Job ids: ["auto_fetch_job"] and [f"staggered_scrape_{index}"]. *)
Inductive job_id :=
| auto_fetch_job
| staggered_scrape (index : nat).

(** What a job calls: [auto_fetch_all], or the lambda
    [scrape_accounts_sequentially(usernames, index)] with its captured
    arguments. *)
Inductive func :=
| AutoFetchAll
| ScrapeFrom (usernames : list string) (index : nat).

(** A job with an [IntervalTrigger(seconds=interval)]. *)
Record Job := mkJob {
  id : job_id;
  job_func : func;
  interval : Z;
  next_run_time : Z
}.

(** The background scheduler's clock and job store, and the calls
    [executor.submit(scrape_account_threadsafe, username)] made so far with
    the time of each. *)
Record Clockwork := mkClockwork {
  clock : Z;
  jobs : list Job;
  submissions : list (Z * string)
}.

Definition job_id_eqb (a b : job_id) : bool :=
  match a, b with
  | auto_fetch_job, auto_fetch_job => true
  | staggered_scrape i, staggered_scrape j => Nat.eqb i j
  | _, _ => false
  end.

(** [executor.submit(scrape_account_threadsafe, username)]. *)
Definition submit (st : Clockwork) (u : string) : Clockwork :=
  mkClockwork (clock st) (jobs st) (submissions st ++ [(clock st, u)]).

(** [scheduler.add_job(f, trigger=IntervalTrigger(seconds=secs), id=i,
    replace_existing=True)]: the first run is one interval from now. *)
Definition add_job (st : Clockwork) (f : func) (secs : Z) (i : job_id) : Clockwork :=
  mkClockwork (clock st)
    (List.filter (fun j => negb (job_id_eqb (id j) i)) (jobs st)
       ++ [mkJob i f secs (clock st + secs)])
    (submissions st).

(** [scrape_accounts_sequentially(usernames, index)]. *)
Definition scrape_accounts_sequentially (st : Clockwork) (usernames : list string)
    (index : nat) : Clockwork :=
  match usernames !! index with
  | None => st
  | Some u =>
      add_job (submit st u) (ScrapeFrom usernames (index + 1)) 60 (staggered_scrape index)
  end.

(** [auto_fetch_all()], reading the accounts from [db]. *)
Definition auto_fetch_all (st : Clockwork) (db : Store.DB) : Clockwork :=
  let usernames := map Store.username (Store.list_accounts db) in
  match usernames with
  | [] => st
  | first :: _ => scrape_accounts_sequentially (submit st first) usernames 1
  end.

Definition run_func (st : Clockwork) (db : Store.DB) (f : func) : Clockwork :=
  match f with
  | AutoFetchAll => auto_fetch_all st db
  | ScrapeFrom usernames index => scrape_accounts_sequentially st usernames index
  end.

Definition is_due (t : Z) (j : Job) : bool := next_run_time j <=? t.

(** One wake-up of the scheduler: every due job gets its next run time, one
    interval later, and its function is run. *)
Definition process_jobs (st : Clockwork) (db : Store.DB) : Clockwork :=
  let due := List.filter (is_due (clock st)) (jobs st) in
  let rescheduled :=
    map (fun j => if is_due (clock st) j
                  then mkJob (id j) (job_func j) (interval j) (next_run_time j + interval j)
                  else j) (jobs st) in
  fold_left (fun st' j => run_func st' db (job_func j)) due
            (mkClockwork (clock st) rescheduled (submissions st)).

(** Let [seconds] pass, waking the scheduler once a second. *)
Fixpoint run_for (seconds : nat) (st : Clockwork) (db : Store.DB) : Clockwork :=
  match seconds with
  | O => st
  | S n =>
      let st' := process_jobs st db in
      run_for n (mkClockwork (clock st' + 1) (jobs st') (submissions st')) db
  end.

(** The module-level [scheduler.add_job(func=auto_fetch_all,
    trigger=IntervalTrigger(minutes=5), id="auto_fetch_job", ...)]. *)
Definition boot (t0 : Z) : Clockwork :=
  add_job (mkClockwork t0 [] []) AutoFetchAll 300 auto_fetch_job.

(** The submissions made from [since] on, as offsets from [since]. *)
Definition offsets_since (since : Z) (st : Clockwork) : list (Z * string) :=
  map (fun p => (fst p - since, snd p))
      (List.filter (fun p => since <=? fst p) (submissions st)).

(** No two jobs of the store share an id. *)
Definition job_ids_unique (st : Clockwork) : Prop := NoDup (map id (jobs st)).

(** The jobs there can be while the accounts are [usernames]: the master job,
    and for a position [k] of the list after the first the job
    [staggered_scrape_k] that goes on from position [k + 1]. *)
Definition job_of_cycle (usernames : list string) (j : Job) : Prop :=
  (id j = auto_fetch_job /\ job_func j = AutoFetchAll) \/
  exists k, (1 <= k < length usernames)%nat /\
            id j = staggered_scrape k /\ job_func j = ScrapeFrom usernames (k + 1).

(** A job store in order: distinct ids, and jobs of the cycle only. *)
Definition tidy (usernames : list string) (st : Clockwork) : Prop :=
  job_ids_unique st /\ Forall (job_of_cycle usernames) (jobs st).

(** *** More about the calls on the executor *)

(** A history (newest first) made of finished crawls only: each end is that
    of the crawl that started just before it. *)
Fixpoint paired (h : list crawl_event) : Prop :=
  match h with
  | [] => True
  | Ended i t2 :: Started i' t1 :: older => i = i' /\ t1 <= t2 /\ paired older
  | _ => False
  end.

(** Crawls do not interleave: the history is finished crawls, with at most
    one crawl still running on top. *)
Definition bracketed (h : list crawl_event) : Prop :=
  paired h \/ exists i t older, h = Started i t :: older /\ paired older.

(** Crawls start in the order of the calls (newest first: decreasing). *)
Fixpoint in_call_order (h : list crawl_event) : Prop :=
  match h with
  | [] => True
  | Started j _ :: older =>
      (forall i t, In (Started i t) older -> (i < j)%nat) /\ in_call_order older
  | Ended _ _ :: older => in_call_order older
  end.

(** What the executor and the lock keep besides [invariant]: the pool bound,
    a held lock has its owner inside, the queue is first in first out, a
    started crawl belongs to a call past the lock, the history is bracketed
    around the crawling call, and with a single worker nothing behind the
    call on the worker has left the queue and crawls start in call order. *)
Record executor_invariant (max_workers : nat) (s : System) : Prop := mkExecutorInvariant {
  ei_pool : (length (List.filter on_worker (calls s)) <= max_workers)%nat;
  ei_owner : forall i, lock s = Some i ->
             exists c, calls s !! i = Some c /\ in_lock (call_pc c);
  ei_fifo : forall i j ci cj, (i < j)%nat ->
            calls s !! i = Some ci -> calls s !! j = Some cj ->
            is_queued ci = true -> is_queued cj = true;
  ei_started : forall i t, In (Started i t) (history s) ->
               exists c, calls s !! i = Some c /\
                         (in_lock (call_pc c) \/ call_pc c = Finished);
  ei_running : forall i c, calls s !! i = Some c -> call_pc c = Crawling ->
               exists t older, history s = Started i t :: older /\ paired older;
  ei_top : forall j t older, history s = Started j t :: older ->
           exists c, calls s !! j = Some c /\ call_pc c = Crawling;
  ei_bracketed : bracketed (history s);
  ei_single : max_workers = 1%nat ->
              (forall i j ci cj, (i < j)%nat ->
                 calls s !! i = Some ci -> calls s !! j = Some cj ->
                 on_worker ci = true -> is_queued cj = true) /\
              in_call_order (history s)
}.

End Scheduler.

(* ===================================================================== *)
(** ** main.py: the endpoints *)
(* ===================================================================== *)

Module Api.
Import Scraper.

(** A Flask response: the status code and the JSON body. *)
Record Response := mkResponse {
  status : Z;
  body : json
}.

(** A view that returns [jsonify(data)] answers 200; [jsonify(a, b)] with two
    positional arguments serialises the pair as a two-element array; a view
    that returns [jsonify(...), code] answers with that code. *)
Definition jsonify (data : json) : Response := mkResponse 200 data.
Definition jsonify_args (a b : json) : Response := mkResponse 200 (JArray [a; b]).
Definition with_status (r : Response) (code : Z) : Response := mkResponse code (body r).

(** The database and the usernames handed to
    [executor.submit(scrape_account_threadsafe, ...)] by the endpoints. *)
Record App := mkApp {
  db : Store.DB;
  submitted : list string
}.

Definition message (text : string) : json := JObject [("message", JString text)].
Definition error (text : string) : json := JObject [("error", JString text)].

(** [POST /subscribe/<username>]. *)
Definition subscribe_account (app : App) (u : string) : App * Response :=
  match Store.get_account (db app) u with
  | Some _ => (app, with_status (jsonify (error "Account already subscribed")) 400)
  | None =>
      let '(db', new_acct) := Store.create_account (db app) u in
      (mkApp db' (submitted app),
       jsonify (JObject [("message", JString ("Subscribed to " ++ u));
                         ("account", JObject [("id", JNumber (Store.account_id new_acct));
                                              ("username", JString (Store.username new_acct))])]))
  end.

(** [DELETE /unsubscribe/<username>]. *)
Definition unsubscribe_account (app : App) (u : string) : App * Response :=
  match Store.get_account (db app) u with
  | None => (app, with_status (jsonify (error "Account not found")) 404)
  | Some _ =>
      (mkApp (Store.delete_account (db app) u) (submitted app),
       jsonify (message ("Unsubscribed from " ++ u)))
  end.

(** [GET /accounts]. *)
Definition list_accounts (app : App) : Response :=
  jsonify (JArray (map (fun acct => JString (Store.username acct))
                       (Store.list_accounts (db app)))).

(** [POST /refresh/<username>]. *)
Definition manual_refresh (app : App) (u : string) : App * Response :=
  match Store.get_account (db app) u with
  | None => (app, with_status (jsonify (error "Account not subscribed")) 404)
  | Some _ =>
      (mkApp (db app) (submitted app ++ [u]),
       jsonify (message ("Started tweet scraping for " ++ u ++ " in background")))
  end.

(** How a view function ends: with the response it returns, or with the
    exception it lets through. *)
Definition View := Store.result Response.

(** The status line Flask sends for a view: the response's own code, and 500
    for an exception no handler is registered for. *)
Definition status_sent (v : View) : Z :=
  match v with
  | Store.Returns response => status response
  | Store.OverflowError => 500
  end.

(** The shared body of [mark_read] and [mark_unread]: the status code is
    passed to [jsonify] as its second argument. The [int] converter of the
    route matches digits only, so the view is called with a natural
    number. *)
Definition mark (app : App) (tweet_id : N) (r : bool) (done : string) : App * View :=
  match Store.update_read_status (db app) (Z.of_N tweet_id) r with
  | (db', Store.Returns tweet) =>
      (mkApp db' (submitted app),
       Store.Returns
         match tweet with
         | Some _ => jsonify_args (message done) (JNumber 200)
         | None => jsonify_args (error "Tweet not found") (JNumber 404)
         end)
  | (db', Store.OverflowError) => (mkApp db' (submitted app), Store.OverflowError)
  end.

(** [PATCH /tweet/<int:tweet_id>/read] and [.../unread]. *)
Definition mark_read (app : App) (tweet_id : N) : App * View :=
  mark app tweet_id true "Tweet marked as read".

Definition mark_unread (app : App) (tweet_id : N) : App * View :=
  mark app tweet_id false "Tweet marked as unread".

End Api.

(* ===================================================================== *)
(** ** Concrete inputs used in the examples *)
(* ===================================================================== *)

Module Samples.
Import Scraper.

Definition sample_db : Store.DB :=
  Store.mkDB [Store.mkAccount 1 "nasa"]
             [Store.mkTweet 1 1 "liftoff" 100 false; Store.mkTweet 2 1 "landing" 200 false].

Definition three_accounts : Store.DB :=
  Store.mkDB [Store.mkAccount 1 "a"; Store.mkAccount 2 "b"; Store.mkAccount 3 "c"] [].

(** Stand-ins for [str.strip] and [datetime.fromisoformat] on inputs without
    surrounding blanks: keep the text, and read the date as a count. *)
Definition keep_text (s : string) : string := s.
Definition read_date (s : string) : option datetime := Some (Z.of_nat (String.length s)).

Definition block (text : string) (ts : option string) : Block :=
  mkBlock (Gives (Some (mkTextEl (Gives text)))) Raises
          (Gives (Some (mkTimeEl (Gives ts)))).

(** A feed that shows ["a"], ["a"] again and ["b"], grows once when scrolled
    and then stays as it is. *)
Definition feed_page : Page :=
  mkPage GotoDone GotoDone "https://x.com/search?q=from%3Abob&f=live" "<html/>" true 100
    (fun _ => mkObservation
                [block "a" (Some "2024-01-01T00:00:00Z");
                 block "a" (Some "2024-01-01T00:00:00Z");
                 block "b" (Some "2024-01-02T00:00:00Z")] 200).

(** The same account behind a login wall, reached on the second attempt. *)
Definition login_page : Page :=
  mkPage GotoTimeout GotoDone "https://x.com/i/flow/login" "<html>Sign in</html>" false 0
    (fun _ => mkObservation [] 0).

(** A block whose first query raises, and a page on which no tweet container
    ever appears. *)
Definition broken_block : Block := mkBlock Raises Raises Raises.

Definition empty_page : Page :=
  mkPage GotoDone GotoDone "https://x.com/search?q=from%3Abob&f=live" "<html/>" false 0
    (fun _ => mkObservation [] 0).

(** A host that refuses the connection. *)
Definition unreachable_page : Page :=
  mkPage GotoFailed GotoDone "about:blank" "" false 0 (fun _ => mkObservation [] 0).


Definition bare_cookies : list json :=
  [JObject [("name", JString "a"); ("value", JString "b")]].

Definition bare_world : World := mkWorld (Some (JSONText (JArray bare_cookies))) [].

Definition ready_world : World :=
  mkWorld (Some (JSONText (storage_state bare_cookies))) [].

(** Two calls on the one worker: the first has crawled from 0 to 5 and slept
    until 65, the second has just started. *)
Definition two_crawls : Scheduler.System :=
  Scheduler.mkSystem 65 (Some 1%nat)
    [Scheduler.mkCall "a" Scheduler.Finished; Scheduler.mkCall "b" Scheduler.Crawling]
    [Scheduler.Started 1 65; Scheduler.Ended 0 5; Scheduler.Started 0 0].

(** One call taken by the worker and standing at the lock. *)
Definition one_waiting : Scheduler.System :=
  Scheduler.mkSystem 0 None [Scheduler.mkCall "a" Scheduler.Waiting] [].

End Samples.

(* ===================================================================== *)
(** ** Facts about crud/tweets.py *)
(* ===================================================================== *)

Module StoreFacts.
Import Store.

Lemma find_none_iff {A} (f : A -> bool) (l : list A) :
  List.find f l = None <-> forall x, In x l -> f x = false.
Proof.
  split.
  - apply find_none.
  - induction l as [|a l IH]; simpl; intros H; [reflexivity|].
    rewrite (H a (or_introl eq_refl)). apply IH. intros x Hx. apply H. now right.
Qed.

Lemma find_app_none {A} (f : A -> bool) (l l' : list A) :
  List.find f l = None -> List.find f (l ++ l') = List.find f l'.
Proof.
  induction l as [|a l IH]; simpl; [reflexivity|].
  destruct (f a); [discriminate | exact IH].
Qed.

Lemma fits_int64_iff (n : Z) : fits_int64 n = true <-> - 2 ^ 63 <= n < 2 ^ 63.
Proof. unfold fits_int64, INT64_MIN, INT64_MAX. lia. Qed.

(** C10. For an id in the signed 64-bit range of the key column:
    [update_read_status] on an id that no row carries returns [None] and
    leaves the database as it was; on an id that is present it returns the
    row with its flag set, keeps the accounts and the number of tweets, and
    changes nothing in any row but the [read] flag of the row with that id.
    For an id outside that range the lookup raises [OverflowError], and the
    database is left as it was. *)
Theorem update_read_status_spec (db : DB) (tid : Z) (r : bool) :
  (- 2 ^ 63 <= tid < 2 ^ 63 ->
     (~ (exists t, In t (tweets db) /\ tweet_id t = tid) ->
        update_read_status db tid r = (db, Returns None))
     /\
     ((exists t, In t (tweets db) /\ tweet_id t = tid) ->
        exists t0 db',
          update_read_status db tid r = (db', Returns (Some t0)) /\
          tweet_id t0 = tid /\ read t0 = r /\
          accounts db' = accounts db /\
          length (tweets db') = length (tweets db) /\
          forall (k : nat) (row : Tweet),
            tweets db !! k = Some row ->
            exists row',
              tweets db' !! k = Some row' /\
              tweet_id row' = tweet_id row /\
              tweet_account_id row' = tweet_account_id row /\
              content row' = content row /\
              timestamp row' = timestamp row /\
              (tweet_id row = tid -> read row' = r) /\
              (tweet_id row <> tid -> row' = row)))
  /\
  (~ (- 2 ^ 63 <= tid < 2 ^ 63) -> update_read_status db tid r = (db, OverflowError)).
Proof.
  unfold update_read_status. split.
  - intros Hfits. apply fits_int64_iff in Hfits. rewrite Hfits. split.
    + intros Hnone.
      destruct (List.find _ (tweets db)) as [t|] eqn:Hfind; [|reflexivity].
      exfalso. apply Hnone. apply find_some in Hfind as [Hin Heq].
      exists t. split; [assumption|]. now apply Z.eqb_eq.
    + intros [t [Hin Hid]].
      destruct (List.find _ (tweets db)) as [t0|] eqn:Hfind.
      * apply find_some in Hfind as [Hin0 Heq0]. apply Z.eqb_eq in Heq0.
        eexists _, _. split; [reflexivity|]. simpl.
        split; [assumption|]. split; [reflexivity|]. split; [reflexivity|].
        split; [apply length_map|].
        intros k row Hk. rewrite list_lookup_fmap, Hk. simpl.
        destruct (Z.eqb_spec (tweet_id row) tid) as [He|Hne].
        -- exists (set_read r row). repeat split; try reflexivity. intros; contradiction.
        -- exists row. repeat split; try reflexivity. intros; contradiction.
      * rewrite find_none_iff in Hfind. specialize (Hfind t Hin).
        apply Z.eqb_neq in Hfind. contradiction.
  - intros Hout. destruct (fits_int64 tid) eqn:Hfits; [|reflexivity].
    apply fits_int64_iff in Hfits. contradiction.
Qed.

Lemma update_read_status_spec_witness :
  update_read_status Samples.sample_db 7 true = (Samples.sample_db, Returns None) /\
  (exists t0 db',
    update_read_status Samples.sample_db 2 true = (db', Returns (Some t0)) /\
    tweet_id t0 = 2 /\ read t0 = true /\ accounts db' = accounts Samples.sample_db) /\
  update_read_status Samples.sample_db (2 ^ 63) true = (Samples.sample_db, OverflowError).
Proof.
  split; [|split].
  - apply (proj1 (proj1 (update_read_status_spec Samples.sample_db 7 true) ltac:(lia))).
    intros [t [Hin Hid]]. simpl in Hin.
    destruct Hin as [<-|[<-|[]]]; simpl in Hid; lia.
  - destruct (proj2 (proj1 (update_read_status_spec Samples.sample_db 2 true) ltac:(lia)))
      as (t0 & db' & H1 & H2 & H3 & H4 & _).
    + exists (mkTweet 2 1 "landing" 200 false). split; [simpl; tauto | reflexivity].
    + exists t0, db'. tauto.
  - apply (proj2 (update_read_status_spec Samples.sample_db (2 ^ 63) true)). lia.
Defined.

(** The id [2 ^ 63] is carried by no row of the sample database, and yet
    [update_read_status] does not return [None] on it. *)
Lemma update_read_status_beyond_int64 :
  ~ (exists t, In t (tweets Samples.sample_db) /\ tweet_id t = 2 ^ 63) /\
  update_read_status Samples.sample_db (2 ^ 63) true <> (Samples.sample_db, Returns None).
Proof.
  split.
  - intros [t [Hin Hid]]. simpl in Hin.
    destruct Hin as [<-|[<-|[]]]; simpl in Hid; lia.
  - discriminate.
Qed.

(** Marking the second sample tweet as read touches that row only. *)
Example update_read_status_sample :
  update_read_status Samples.sample_db 2 true =
  (mkDB [mkAccount 1 "nasa"]
        [mkTweet 1 1 "liftoff" 100 false; mkTweet 2 1 "landing" 200 true],
   Returns (Some (mkTweet 2 1 "landing" 200 true))).
Proof. reflexivity. Qed.

End StoreFacts.

(* ===================================================================== *)
(** ** Facts about the ingestion in [fetch_and_store_tweets] *)
(* ===================================================================== *)

Module IngestFacts.
Import Store Scraper.

Lemma tweet_exists_rows db a c :
  tweet_exists db a c = negb (Nat.eqb (rows_for db (account_id a) c) 0).
Proof.
  unfold tweet_exists, rows_for.
  induction (tweets db) as [|t l IH]; simpl; [reflexivity|].
  destruct (same_pair (account_id a) c t); simpl; [reflexivity | exact IH].
Qed.

Lemma rows_for_create db a c ts now c' :
  rows_for (fst (create_tweet db a c ts now)) (account_id a) c' =
  (rows_for db (account_id a) c' + (if String.eqb c c' then 1 else 0))%nat.
Proof.
  unfold rows_for, create_tweet. simpl.
  rewrite List.filter_app, length_app. f_equal. simpl.
  unfold same_pair at 1. simpl. rewrite Z.eqb_refl. simpl.
  destruct (String.eqb c c'); reflexivity.
Qed.

Lemma store_new_accounts new : forall db a now count,
  accounts (fst (store_new db a new now count)) = accounts db.
Proof.
  induction new as [|t rest IH]; intros; simpl; [reflexivity|].
  destruct (tweet_exists db a (content t)); rewrite IH; reflexivity.
Qed.

(** After the loop a pair that was stored keeps its rows, and a pair that was
    not has one row exactly when the batch mentions it. *)
Lemma store_new_rows new : forall db a now count c,
  rows_for (fst (store_new db a new now count)) (account_id a) c =
  if Nat.eqb (rows_for db (account_id a) c) 0
  then (if mentions c new then 1%nat else 0%nat)
  else rows_for db (account_id a) c.
Proof.
  induction new as [|t rest IH]; intros; cbn [store_new mentions existsb].
  - cbn [fst]. destruct (Nat.eqb_spec (rows_for db (account_id a) c) 0); congruence.
  - rewrite tweet_exists_rows.
    destruct (Nat.eqb_spec (rows_for db (account_id a) (content t)) 0) as [Hz|Hnz]; cbn [negb].
    + rewrite IH, rows_for_create.
      destruct (String.eqb_spec (content t) c) as [He|Hne]; cbn [orb].
      * rewrite He in Hz. rewrite Hz. reflexivity.
      * rewrite Nat.add_0_r. reflexivity.
    + rewrite IH.
      destruct (String.eqb_spec (content t) c) as [He|Hne]; cbn [orb]; [|reflexivity].
      rewrite He in Hnz.
      destruct (Nat.eqb_spec (rows_for db (account_id a) c) 0); [contradiction|reflexivity].
Qed.

Lemma store_new_present new : forall db a now count,
  (forall t, In t new -> tweet_exists db a (content t) = true) ->
  store_new db a new now count = (db, count).
Proof.
  induction new as [|t rest IH]; intros db a now count H; simpl; [reflexivity|].
  rewrite (H t (or_introl eq_refl)). apply IH. intros t' Ht'. apply H. now right.
Qed.

Lemma mentions_in c new t : In t new -> content t = c -> mentions c new = true.
Proof.
  intros Hin <-. unfold mentions. apply existsb_exists. exists t. split; [assumption|].
  apply String.eqb_refl.
Qed.

Lemma store_new_all_present new db a now count t :
  In t new -> tweet_exists (fst (store_new db a new now count)) a (content t) = true.
Proof.
  intros Hin. rewrite tweet_exists_rows, store_new_rows.
  destruct (Nat.eqb_spec (rows_for db (account_id a) (content t)) 0) as [Hz|Hnz].
  - now rewrite (mentions_in (content t) new t Hin eq_refl).
  - destruct (Nat.eqb_spec (rows_for db (account_id a) (content t)) 0); [contradiction|reflexivity].
Qed.

Lemma get_account_create db u :
  get_account db u = None ->
  get_account (fst (create_account db u)) u = Some (snd (create_account db u)).
Proof.
  unfold get_account, create_account. cbn [fst snd accounts]. intros Hnone.
  rewrite (StoreFacts.find_app_none _ _ _ Hnone). simpl. now rewrite String.eqb_refl.
Qed.

(** The account [runner] works on: the stored one, or the one it creates. *)
Lemma ingest_unfold db u new now :
  exists db1 a,
    get_account db1 u = Some a /\
    tweets db1 = tweets db /\
    ingest db u new now = store_new db1 a new now 0.
Proof.
  unfold ingest.
  destruct (get_account db u) as [a|] eqn:Hget.
  - exists db, a. auto.
  - exists (fst (create_account db u)), (snd (create_account db u)).
    split; [now apply get_account_create|]. split; [reflexivity|].
    now destruct (create_account db u).
Qed.

(** C2. Ingesting a batch and then the same batch again: the second run
    reports zero new items and leaves the database as the first run left it;
    for every content, the account's rows with that content are the rows
    there were before the two runs, or a single row when there was none and
    the batch holds the content. So the two runs add at most one row for a
    pair (account, content). *)
Theorem ingest_idempotent (db : DB) (u : string) (new : list TweetDict)
    (now1 now2 : datetime) :
  let '(db1, count1) := ingest db u new now1 in
  let '(db2, count2) := ingest db1 u new now2 in
  count2 = 0%nat /\ db2 = db1 /\
  exists a, get_account db1 u = Some a /\
    forall c,
      rows_for db2 (account_id a) c =
        (if Nat.eqb (rows_for db (account_id a) c) 0
         then (if mentions c new then 1%nat else 0%nat)
         else rows_for db (account_id a) c) /\
      (rows_for db2 (account_id a) c <= rows_for db (account_id a) c + 1)%nat.
Proof.
  destruct (ingest_unfold db u new now1) as (d & a & Hget & Htw & Hrun).
  destruct (ingest db u new now1) as [db1 count1] eqn:H1.
  assert (Hdb1 : db1 = fst (store_new d a new now1 0)) by (rewrite <- Hrun; reflexivity).
  assert (Hget1 : get_account db1 u = Some a).
  { unfold get_account in *. rewrite Hdb1, store_new_accounts. exact Hget. }
  assert (H2 : ingest db1 u new now2 = (db1, 0%nat)).
  { unfold ingest. rewrite Hget1. apply store_new_present.
    intros t Ht. rewrite Hdb1. now apply store_new_all_present. }
  rewrite H2. split; [reflexivity|]. split; [reflexivity|].
  exists a. split; [assumption|]. intros c.
  assert (Hrows : rows_for d (account_id a) c = rows_for db (account_id a) c).
  { unfold rows_for. now rewrite Htw. }
  rewrite Hdb1, store_new_rows, Hrows.
  split; [reflexivity|].
  destruct (Nat.eqb (rows_for db (account_id a) c) 0); [|lia].
  destruct (mentions c new); lia.
Qed.

(** A batch with a repeated text and a text that is already stored, for an
    account seen for the first time and for a known one. *)
Example ingest_sample :
  ingest empty_db "nasa" [mkTweetDict "x" 1; mkTweetDict "x" 2; mkTweetDict "y" 3] 0 =
    (mkDB [mkAccount 1 "nasa"] [mkTweet 1 1 "x" 1 false; mkTweet 2 1 "y" 3 false], 2%nat)
  /\
  ingest Samples.sample_db "nasa" [mkTweetDict "liftoff" 7; mkTweetDict "orbit" 8] 0 =
    (mkDB [mkAccount 1 "nasa"]
          [mkTweet 1 1 "liftoff" 100 false; mkTweet 2 1 "landing" 200 false;
           mkTweet 3 1 "orbit" 8 false], 1%nat).
Proof. split; reflexivity. Qed.

End IngestFacts.

(* ===================================================================== *)
(** ** Facts about [scrape_tweets] *)
(* ===================================================================== *)

Module ScraperFacts.
Import Scraper.

Section Facts.
Variable THIS_DIR : string.
Variable strip : string -> string.
Variable fromisoformat : string -> option datetime.

Abbreviation scan_block := (scan_block strip fromisoformat).
Abbreviation scan_blocks := (scan_blocks strip fromisoformat).
Abbreviation loop_body := (loop_body strip fromisoformat).
Abbreviation scroll_loop := (scroll_loop strip fromisoformat).
Abbreviation loop_state_at := (loop_state_at strip fromisoformat).
Abbreviation browse := (browse THIS_DIR strip fromisoformat).
Abbreviation browse_calls := (browse_calls THIS_DIR strip fromisoformat).
Abbreviation scrape_tweets := (scrape_tweets THIS_DIR strip fromisoformat).
Abbreviation scrape_runs := (scrape_runs THIS_DIR strip fromisoformat).

Lemma browse_calls_correct fuel pg u max_tweets w :
  browse fuel pg u max_tweets w =
  (extend w (fst (browse_calls fuel pg u max_tweets)), snd (browse_calls fuel pg u max_tweets)).
Proof.
  unfold Scraper.browse, Scraper.browse_calls, navigation_error, navigation_events,
    diagnostics_events, navigate, except_timeout, goto, dump_diagnostics, collect, extend,
    bind, emit, ret, raise.
  destruct (goto_first pg); [| destruct (goto_retry pg) |];
    cbn -[contains Scraper.scroll_loop path_join X_SEARCH_URL COOKIES_FILE];
    rewrite <- ?app_assoc; try reflexivity;
    (destruct (contains "login" (page_url pg) || contains "challenge" (page_url pg));
       [cbn -[path_join X_SEARCH_URL COOKIES_FILE]; rewrite <- ?app_assoc; reflexivity|];
     destruct (selector_appears pg);
       [|cbn -[path_join X_SEARCH_URL COOKIES_FILE]; rewrite <- ?app_assoc; reflexivity];
     cbn -[Scraper.scroll_loop path_join X_SEARCH_URL COOKIES_FILE];
     destruct (scroll_loop _ _ _ _ _ _ _);
       cbn -[path_join X_SEARCH_URL COOKIES_FILE]; rewrite <- ?app_assoc; reflexivity).
Qed.

(** [scrape_tweets], branch by branch. *)
Lemma scrape_tweets_calls fuel pg u max_tweets w :
  scrape_tweets fuel pg u max_tweets w =
  match load_credentials w with
  | (w1, Ok _) =>
      (extend w1 ([PlaywrightStart] ++ fst (browse_calls fuel pg u max_tweets)
                    ++ [PlaywrightStop])%list,
       snd (browse_calls fuel pg u max_tweets))
  | (w1, Raise e) => (w1, Raise e)
  | (w1, OutOfFuel) => (w1, OutOfFuel)
  end.
Proof.
  unfold Scraper.scrape_tweets, bind at 1.
  destruct (load_credentials w) as [w1 [[]|e|]]; try reflexivity.
  unfold async_with_playwright, bind, emit. rewrite browse_calls_correct.
  unfold extend. cbn [trace cookie_file fst snd]. rewrite <- !app_assoc. reflexivity.
Qed.

(** *** In-fetch deduplication *)

Lemma deduplicated_nil : deduplicated [] ∅.
Proof. split; [constructor | intros t []]. Qed.

Lemma deduplicated_snoc tweets seen c ts :
  deduplicated tweets seen -> c ∉ seen ->
  deduplicated (tweets ++ [mkTweetDict c ts]) ({[c]} ∪ seen).
Proof.
  intros [Hnd Hsub] Hfresh. split.
  - rewrite map_app. simpl. apply NoDup_app. split; [assumption|]. split.
    + intros x Hx [->|[]]%list_elem_of_In. apply Hfresh.
      apply list_elem_of_In, in_map_iff in Hx as (t & <- & Ht). now apply Hsub.
    + apply NoDup_singleton.
  - intros t [Ht|[<-|[]]]%in_app_or.
    + apply elem_of_union_r. now apply Hsub.
    + apply elem_of_union_l. now apply elem_of_singleton.
Qed.

Lemma scan_block_deduplicated b tweets seen tweets' seen' :
  deduplicated tweets seen ->
  scan_block b tweets seen = Gives (tweets', seen') ->
  deduplicated tweets' seen'.
Proof.
  intros Hinv. unfold Scraper.scan_block, attempt_bind.
  repeat case_match; intros [= <- <-]; try assumption;
    now apply deduplicated_snoc.
Qed.

Lemma scan_blocks_deduplicated blocks max_tweets : forall tweets seen,
  deduplicated tweets seen ->
  deduplicated (fst (scan_blocks blocks max_tweets tweets seen))
               (snd (scan_blocks blocks max_tweets tweets seen)).
Proof.
  induction blocks as [|b rest IH]; intros tweets seen Hinv; simpl; [assumption|].
  destruct (scan_block b tweets seen) as [|[tweets' seen']] eqn:Hb; [now apply IH|].
  pose proof (scan_block_deduplicated _ _ _ _ _ Hinv Hb) as Hinv'.
  destruct (max_tweets <=? len tweets'); [assumption | now apply IH].
Qed.

Lemma scroll_loop_deduplicated fuel pg max_tweets :
  forall i last_height tweets seen result,
  deduplicated tweets seen ->
  scroll_loop fuel pg i max_tweets last_height tweets seen = Some result ->
  NoDup (map content result).
Proof.
  induction fuel as [|fuel IH]; intros i h tweets seen result Hinv; simpl.
  - destruct (len tweets <? max_tweets); [discriminate|]. intros [= <-]. apply Hinv.
  - destruct (len tweets <? max_tweets); [|intros [= <-]; apply Hinv].
    unfold Scraper.loop_body.
    pose proof (scan_blocks_deduplicated (tweet_blocks (observe pg i)) max_tweets _ _ Hinv)
      as Hinv'.
    destruct (scan_blocks _ _ _ _) as [tweets' seen']. simpl in Hinv'.
    destruct (max_tweets <=? len tweets'); [intros [= <-]; apply Hinv'|].
    destruct (new_height (observe pg i) =? h); [intros [= <-]; apply Hinv'|].
    now apply IH.
Qed.

(** A run that returns went through the pagination loop. *)
Lemma scrape_tweets_returns fuel pg u max_tweets w w' result :
  scrape_tweets fuel pg u max_tweets w = (w', Ok result) ->
  scroll_loop fuel pg 0 max_tweets (initial_height pg) [] ∅ = Some result.
Proof.
  rewrite scrape_tweets_calls.
  destruct (load_credentials w) as [w1 [[]|e|]]; try discriminate.
  unfold Scraper.browse_calls.
  destruct (navigation_error pg); [discriminate|].
  destruct (contains "login" (page_url pg) || contains "challenge" (page_url pg));
    [discriminate|].
  destruct (selector_appears pg); [|discriminate].
  destruct (scroll_loop _ _ _ _ _ _ _); [|discriminate].
  cbn [snd]. intros [= _ <-]. reflexivity.
Qed.

(** C3. Whatever the page shows, turn after turn, and whatever the username
    and the maximum, the list [scrape_tweets] returns holds no content
    string twice. *)
Theorem scrape_tweets_no_duplicate_content fuel pg u max_tweets w w' result :
  scrape_tweets fuel pg u max_tweets w = (w', Ok result) ->
  NoDup (map content result).
Proof.
  intros Hrun. apply scrape_tweets_returns in Hrun.
  eapply scroll_loop_deduplicated; [apply deduplicated_nil | exact Hrun].
Qed.

(** *** The credentials file *)

(** Only [load_credentials] touches the credentials file. *)
Lemma scrape_tweets_cookie_file fuel pg u max_tweets w :
  cookie_file (fst (scrape_tweets fuel pg u max_tweets w)) =
  cookie_file (fst (load_credentials w)).
Proof.
  rewrite scrape_tweets_calls.
  destruct (load_credentials w) as [w1 [[]|e|]]; reflexivity.
Qed.

Lemma storage_state_kept fuel pg u max_tweets w members :
  cookie_file w = Some (JSONText (JObject members)) ->
  cookie_file (fst (scrape_tweets fuel pg u max_tweets w)) = cookie_file w.
Proof.
  intros Hfile. rewrite scrape_tweets_cookie_file.
  unfold load_credentials. rewrite Hfile. now destruct (has_key "cookies" members).
Qed.

Lemma scrape_runs_storage_state runs : forall w members,
  cookie_file w = Some (JSONText (JObject members)) ->
  cookie_file (scrape_runs runs w) = cookie_file w.
Proof.
  induction runs as [|[[[fuel pg] u] max_tweets] later IH]; intros w members Hfile;
    [reflexivity|].
  cbn [Scraper.scrape_runs].
  pose proof (storage_state_kept fuel pg u max_tweets w members Hfile) as Hkept.
  rewrite (IH _ members); [exact Hkept | now rewrite Hkept].
Qed.

(** C6. When the credentials file holds a bare array, one call of
    [scrape_tweets], however it ends, leaves the file holding the object with
    that array under ["cookies"] and an empty ["origins"]; after any further
    calls the file still holds that object, which is a dict with a
    ["cookies"] key, so [load_credentials] accepts it without rewriting. *)
Theorem bare_array_normalised_once (cookies : list json) fuel pg u max_tweets w :
  cookie_file w = Some (JSONText (JArray cookies)) ->
  let w' := fst (scrape_tweets fuel pg u max_tweets w) in
  takes_rewrite_branch w = true /\
  cookie_file w' = Some (JSONText (storage_state cookies)) /\
  forall runs,
    let w'' := scrape_runs runs w' in
    cookie_file w'' = Some (JSONText (storage_state cookies)) /\
    has_key "cookies" [("cookies", JArray cookies); ("origins", JArray [])] = true /\
    takes_rewrite_branch w'' = false /\
    load_credentials w'' = (w'', Ok tt).
Proof.
  intros Hfile w'.
  assert (Hw' : cookie_file w' = Some (JSONText (storage_state cookies))).
  { subst w'. rewrite scrape_tweets_cookie_file. unfold load_credentials. now rewrite Hfile. }
  split; [unfold takes_rewrite_branch; now rewrite Hfile|].
  split; [exact Hw'|].
  intros runs w''.
  assert (Hw'' : cookie_file w'' = Some (JSONText (storage_state cookies))).
  { subst w''. rewrite (scrape_runs_storage_state runs w' _ Hw'). exact Hw'. }
  split; [exact Hw''|]. split; [reflexivity|].
  unfold takes_rewrite_branch, load_credentials. rewrite Hw''. split; reflexivity.
Qed.

(** *** The session *)

Lemma session_open_from_app (tr1 tr2 : list event) : forall b,
  session_open_from b (tr1 ++ tr2) = session_open_from (session_open_from b tr1) tr2.
Proof.
  induction tr1 as [|e tr1 IH]; intros b; simpl; [reflexivity|].
  destruct e; apply IH.
Qed.

Lemma load_credentials_trace w w1 r :
  load_credentials w = (w1, r) -> trace w1 = trace w.
Proof.
  unfold load_credentials. repeat case_match; intros; simplify_eq; reflexivity.
Qed.

Lemma navigation_succeeds_no_error pg :
  navigation_succeeds pg = true -> navigation_error pg = None.
Proof.
  unfold navigation_succeeds, navigation_error.
  destruct (goto_first pg); [reflexivity | | discriminate].
  destruct (goto_retry pg); [reflexivity | discriminate | discriminate].
Qed.

Lemma navigation_error_kind pg e :
  navigation_error pg = Some e -> e = PWTimeoutError \/ e = PWError.
Proof.
  unfold navigation_error. repeat case_match; intros [= <-]; tauto.
Qed.


(** The stop of the driver is not a call on the browser. *)
Lemma session_open_after_stop b tr :
  session_open_from b (tr ++ [PlaywrightStop]) = session_open_from b tr.
Proof. rewrite session_open_from_app. reflexivity. Qed.

Lemma session_closed_after_close b tr :
  session_open_from b (tr ++ [BrowserClose]) = false.
Proof. rewrite session_open_from_app. reflexivity. Qed.



(** C7. With credentials that load and a navigation that gets to a page whose
    URL contains ["login"], [scrape_tweets] raises [AuthChallenge] and so
    returns no items; the calls it makes are the ones listed, in that order:
    one HTML file and one screenshot are written, both named after the
    username, and the browser is closed before the error leaves. *)
Theorem auth_challenge_on_login fuel pg u max_tweets w :
  snd (load_credentials w) = Ok tt ->
  navigation_succeeds pg = true ->
  contains "login" (page_url pg) = true ->
  let dump_html := path_join THIS_DIR (u ++ "_redirect" ++ ".html")%string in
  let screenshot_path := path_join THIS_DIR (u ++ "_redirect" ++ ".png")%string in
  let evs := ([PlaywrightStart; Launch; NewContext (COOKIES_FILE THIS_DIR); NewPage]
              ++ navigation_events pg (X_SEARCH_URL u)
              ++ [WaitForTimeout 5000; PageContent; WriteFile dump_html (page_content pg);
                  Screenshot screenshot_path; BrowserClose; PlaywrightStop])%list in
  scrape_tweets fuel pg u max_tweets w =
    (mkWorld (cookie_file (fst (load_credentials w))) (trace w ++ evs)%list,
     Raise (AuthChallenge (page_url pg) dump_html screenshot_path))
  /\ written_files evs = [dump_html]
  /\ screenshots evs = [screenshot_path]
  /\ session_open (trace w ++ evs)%list = false.
Proof.
  intros Hcred Hnav Hlogin dump_html screenshot_path evs.
  split; [|split; [|split]].
  - rewrite scrape_tweets_calls.
    destruct (load_credentials w) as [w1 r] eqn:Hload. cbn [snd fst] in *. subst r.
    pose proof (load_credentials_trace _ _ _ Hload) as Htr.
    unfold Scraper.browse_calls, diagnostics_events, extend.
    rewrite (navigation_succeeds_no_error _ Hnav), Hlogin. cbn [orb fst snd].
    rewrite Htr. subst evs dump_html screenshot_path.
    f_equal. f_equal. f_equal. cbn [app]. rewrite <- !app_assoc. reflexivity.
  - subst evs. unfold navigation_events. destruct (goto_first pg); reflexivity.
  - subst evs. unfold navigation_events. destruct (goto_first pg); reflexivity.
  - subst evs. unfold session_open, navigation_events. rewrite session_open_from_app.
    destruct (goto_first pg); reflexivity.
Qed.


(** X19. On a failed navigation the calls stop at the last [goto]: the
    error of the navigation is raised, no [browser.close()] is made, and the
    block is left through the exit of [async with]. *)
Lemma failed_navigation_calls fuel pg u max_tweets w e :
  snd (load_credentials w) = Ok tt ->
  navigation_error pg = Some e ->
  let evs := ([PlaywrightStart; Launch; NewContext (COOKIES_FILE THIS_DIR); NewPage]
              ++ navigation_events pg (X_SEARCH_URL u) ++ [PlaywrightStop])%list in
  scrape_tweets fuel pg u max_tweets w =
    (extend (fst (load_credentials w)) evs, Raise e)
  /\ ~ In BrowserClose evs.
Proof.
  intros Hcred Hnav evs. split.
  - rewrite scrape_tweets_calls.
    destruct (load_credentials w) as [w1 r]. cbn [snd fst] in *. subst r.
    unfold Scraper.browse_calls. rewrite Hnav. cbn [fst snd].
    subst evs. rewrite <- !app_assoc. reflexivity.
  - subst evs. unfold navigation_events.
    destruct (goto_first pg); simpl; intros H;
      repeat (destruct H as [H|H]; [discriminate|]); exact H.
Qed.

(** *** The pagination loop *)

(** The loop from turn [i] on, when it is still running [k] turns later. *)
Lemma scroll_loop_from_state k pg max_tweets : forall fuel i h tweets seen st,
  loop_state_at k pg i max_tweets h tweets seen = Some st ->
  scroll_loop (k + fuel) pg i max_tweets h tweets seen =
  scroll_loop fuel pg (i + k) max_tweets (fst (fst st)) (snd (fst st)) (snd st).
Proof.
  induction k as [|k IH]; intros fuel i h tweets seen st; cbn [Scraper.loop_state_at].
  - destruct (len tweets <? max_tweets); [|discriminate].
    intros [= <-]. rewrite Nat.add_0_r. reflexivity.
  - destruct (len tweets <? max_tweets) eqn:Hlt; [|discriminate].
    change (S k + fuel)%nat with (S (k + fuel)). cbn [Scraper.scroll_loop]. rewrite Hlt.
    destruct (loop_body _ _ _ _ _) as [|h' tweets' seen']; [discriminate|].
    intros Hst. rewrite (IH _ _ _ _ _ _ Hst). f_equal. lia.
Qed.

Lemma loop_state_at_running k pg max_tweets : forall i h tweets seen st,
  loop_state_at k pg i max_tweets h tweets seen = Some st ->
  len (snd (fst st)) < max_tweets.
Proof.
  induction k as [|k IH]; intros i h tweets seen st; cbn [Scraper.loop_state_at].
  - destruct (Z.ltb_spec (len tweets) max_tweets); [|discriminate].
    intros [= <-]. assumption.
  - destruct (len tweets <? max_tweets); [|discriminate].
    destruct (loop_body _ _ _ _ _) as [|h' tweets' seen']; [discriminate|]. apply IH.
Qed.

(** A turn whose scroll leaves the height as it was ends the loop. *)
Lemma scroll_loop_stall fuel pg i max_tweets last_height tweets seen :
  len tweets < max_tweets ->
  new_height (observe pg i) = last_height ->
  scroll_loop (S fuel) pg i max_tweets last_height tweets seen =
  Some (fst (scan_blocks (tweet_blocks (observe pg i)) max_tweets tweets seen)).
Proof.
  intros Hlt Hstall. cbn [Scraper.scroll_loop].
  apply Z.ltb_lt in Hlt. rewrite Hlt. unfold Scraper.loop_body.
  destruct (scan_blocks _ _ _ _) as [tweets' seen']. cbn [fst].
  destruct (max_tweets <=? len tweets'); [reflexivity|].
  rewrite Hstall, Z.eqb_refl. reflexivity.
Qed.

(** More turns allowed do not change what the loop returns. *)
Lemma scroll_loop_more_fuel fuel pg max_tweets : forall i h tweets seen result,
  scroll_loop fuel pg i max_tweets h tweets seen = Some result ->
  scroll_loop (S fuel) pg i max_tweets h tweets seen = Some result.
Proof.
  induction fuel as [|fuel IH]; intros i h tweets seen result.
  - cbn [Scraper.scroll_loop]. destruct (len tweets <? max_tweets); [discriminate|].
    intros H. exact H.
  - intros H. cbn [Scraper.scroll_loop] in H. cbn [Scraper.scroll_loop].
    destruct (len tweets <? max_tweets); [|exact H].
    destruct (loop_body _ _ _ _ _) as [|h' tweets' seen']; [exact H|].
    apply IH in H. exact H.
Qed.

(** C8. In a run that reaches the pagination loop, let the loop be at the
    start of turn [k] with [last_height] the height measured last, and let
    the height after the scroll of that turn be the same. Then, given more
    than [k] turns, the loop ends there and [scrape_tweets] returns what was
    collected up to and including that turn, however few, with the session
    closed. *)
Theorem stall_ends_pagination fuel k pg u max_tweets w last_height tweets seen :
  snd (load_credentials w) = Ok tt ->
  navigation_succeeds pg = true ->
  contains "login" (page_url pg) = false ->
  contains "challenge" (page_url pg) = false ->
  selector_appears pg = true ->
  loop_state_at k pg 0 max_tweets (initial_height pg) [] ∅ = Some (last_height, tweets, seen) ->
  new_height (observe pg k) = last_height ->
  (k < fuel)%nat ->
  let collected := fst (scan_blocks (tweet_blocks (observe pg k)) max_tweets tweets seen) in
  scroll_loop fuel pg 0 max_tweets (initial_height pg) [] ∅ = Some collected /\
  snd (scrape_tweets fuel pg u max_tweets w) = Ok collected /\
  session_open (trace (fst (scrape_tweets fuel pg u max_tweets w))) = false.
Proof.
  intros Hcred Hnav Hlogin Hchallenge Hsel Hstate Hstall Hfuel collected.
  assert (Hloop : scroll_loop fuel pg 0 max_tweets (initial_height pg) [] ∅ = Some collected).
  { replace fuel with (k + S (fuel - S k))%nat by lia.
    rewrite (scroll_loop_from_state _ _ _ _ _ _ _ _ _ Hstate). cbn [fst snd].
    apply scroll_loop_stall; [|exact Hstall].
    apply (loop_state_at_running _ _ _ _ _ _ _ _ Hstate). }
  split; [exact Hloop|].
  rewrite scrape_tweets_calls.
  destruct (load_credentials w) as [w1 r] eqn:Hload. cbn [snd] in Hcred. subst r.
  unfold Scraper.browse_calls.
  rewrite (navigation_succeeds_no_error _ Hnav), Hlogin, Hchallenge, Hsel, Hloop.
  cbn [orb fst snd]. split; [reflexivity|].
  unfold session_open, extend. cbn [trace].
  rewrite !app_assoc, session_open_after_stop.
  change [WaitForTimeout 5000; WaitForSelector TWEET_SELECTOR; BrowserClose]
    with ([WaitForTimeout 5000; WaitForSelector TWEET_SELECTOR] ++ [BrowserClose])%list.
  rewrite !app_assoc. apply session_closed_after_close.
Qed.

End Facts.

(** *** The theorems at work on the sample pages *)

Lemma scrape_tweets_no_duplicate_content_witness :
  NoDup (map content [mkTweetDict "a" 25; mkTweetDict "b" 25]).
Proof.
  apply (scrape_tweets_no_duplicate_content "/srv" Samples.keep_text Samples.read_date
           5 Samples.feed_page "bob" 20 Samples.ready_world
           (fst (scrape_tweets "/srv" Samples.keep_text Samples.read_date
                   5 Samples.feed_page "bob" 20 Samples.ready_world))).
  vm_compute. reflexivity.
Defined.

Lemma bare_array_normalised_once_witness :
  cookie_file (fst (scrape_tweets "/srv" Samples.keep_text Samples.read_date
                      5 Samples.login_page "bob" 20 Samples.bare_world)) =
  Some (JSONText (JObject [("cookies", JArray [JObject [("name", JString "a");
                                                       ("value", JString "b")]]);
                           ("origins", JArray [])])).
Proof.
  apply (bare_array_normalised_once "/srv" Samples.keep_text Samples.read_date
           Samples.bare_cookies 5 Samples.login_page "bob" 20 Samples.bare_world).
  reflexivity.
Defined.

Lemma auth_challenge_on_login_witness :
  scrape_tweets "/srv" Samples.keep_text Samples.read_date
    5 Samples.login_page "bob" 20 Samples.ready_world =
  (mkWorld (Some (JSONText (storage_state Samples.bare_cookies)))
     [PlaywrightStart; Launch; NewContext "/srv/auth.json"; NewPage;
      Goto "https://x.com/search?q=from%3Abob&f=live"; Sleep 2;
      Goto "https://x.com/search?q=from%3Abob&f=live";
      WaitForTimeout 5000; PageContent;
      WriteFile "/srv/bob_redirect.html" "<html>Sign in</html>";
      Screenshot "/srv/bob_redirect.png"; BrowserClose; PlaywrightStop],
   Raise (AuthChallenge "https://x.com/i/flow/login"
            "/srv/bob_redirect.html" "/srv/bob_redirect.png")).
Proof.
  apply (auth_challenge_on_login "/srv" Samples.keep_text Samples.read_date
           5 Samples.login_page "bob" 20 Samples.ready_world);
    reflexivity.
Defined.


Lemma stall_ends_pagination_witness :
  snd (scrape_tweets "/srv" Samples.keep_text Samples.read_date
         5 Samples.feed_page "bob" 20 Samples.ready_world) =
  Ok [mkTweetDict "a" 25; mkTweetDict "b" 25].
Proof.
  refine (proj1 (proj2 (stall_ends_pagination "/srv" Samples.keep_text Samples.read_date
           5 1 Samples.feed_page "bob" 20 Samples.ready_world 200
           [mkTweetDict "a" 25; mkTweetDict "b" 25] ({["a"]} ∪ ({["b"]} ∪ ∅))
           _ _ _ _ _ _ _ _)));
    try reflexivity; try (vm_compute; reflexivity).
  lia.
Defined.

End ScraperFacts.

(* ===================================================================== *)
(** ** Facts about main.py *)
(* ===================================================================== *)

Module SchedulerFacts.
Import Scheduler.

Lemma lookup_set_pc s i p q j c :
  pc_at s i = Some p ->
  set_pc s i q !! j = Some c ->
  (j = i /\ call_pc c = q) \/ (j <> i /\ calls s !! j = Some c).
Proof.
  unfold pc_at, set_pc. destruct (calls s !! i) as [ci|] eqn:Hi; [|discriminate].
  intros _ Hj. destruct (decide (j = i)) as [->|Hne].
  - left. split; [reflexivity|].
    rewrite list_lookup_insert_eq in Hj by (eapply lookup_lt_Some; eauto).
    now inversion Hj.
  - right. split; [assumption|]. now rewrite list_lookup_insert_ne in Hj by congruence.
Qed.

Lemma pc_at_lookup s i p :
  pc_at s i = Some p -> exists c, calls s !! i = Some c /\ call_pc c = p.
Proof.
  unfold pc_at. destruct (calls s !! i) as [c|]; [|discriminate].
  intros [= <-]. now exists c.
Qed.

Lemma invariant_initial t0 : invariant (initial t0).
Proof.
  split; simpl; try (intros; contradiction); try exact I; discriminate.
Qed.

Lemma invariant_step max_workers s s' :
  invariant s -> step max_workers s s' -> invariant s'.
Proof.
  intros [Hown Hpast Hfree Hsleep Hsp] Hstep. unfold COOLDOWN in *.
  destruct Hstep as [s d Hd | s u | s i Hq _ _ | s i Hw Hlock | s i Hc | s i wake Hcd Hwake].
  - (* the clock moves on *)
    split; cbn [now lock calls history]; unfold COOLDOWN in *; try assumption.
    + intros e He. specialize (Hpast e He). lia.
    + intros Hl j t He. specialize (Hfree Hl j t He). lia.
  - (* a submission *)
    split; cbn [now lock calls history]; unfold COOLDOWN in *; try assumption.
    + intros i c Hc Hin. apply lookup_app_Some in Hc as [Hc|[_ Hc]]; [eauto|].
      apply list_lookup_singleton_Some in Hc as [_ <-]. contradiction.
    + intros i c wake Hc Hpc. apply lookup_app_Some in Hc as [Hc|[_ Hc]]; [eauto|].
      apply list_lookup_singleton_Some in Hc as [_ <-]. discriminate.
  - (* a worker takes the call *)
    split; cbn [now lock calls history]; unfold COOLDOWN in *; try assumption.
    + intros j c Hc Hin. destruct (lookup_set_pc _ _ _ _ _ _ Hq Hc) as [[-> Hp]|[_ Hc']]; [|eauto].
      rewrite Hp in Hin. contradiction.
    + intros j c wake Hc Hpc.
      destruct (lookup_set_pc _ _ _ _ _ _ Hq Hc) as [[-> Hp]|[_ Hc']]; [congruence|eauto].
  - (* the lock is taken *)
    split; cbn [now lock calls history]; unfold COOLDOWN in *.
    + intros j c Hc Hin. destruct (lookup_set_pc _ _ _ _ _ _ Hw Hc) as [[-> _]|[_ Hc']];
        [reflexivity|]. specialize (Hown j c Hc' Hin). congruence.
    + intros e [<-|He]; [simpl; lia | auto].
    + discriminate.
    + intros j c wake Hc Hpc.
      destruct (lookup_set_pc _ _ _ _ _ _ Hw Hc) as [[-> Hp]|[_ Hc']]; [congruence|].
      assert (lock s = Some j) by (apply (Hown j c Hc'); rewrite Hpc; exact I). congruence.
    + cbn [spaced]. split; [|assumption]. intros j t He. exact (Hfree Hlock j t He).
  - (* the crawl is over *)
    destruct (pc_at_lookup _ _ _ Hc) as (ci & Hci & Hpci).
    assert (Hli : lock s = Some i) by (apply (Hown i ci Hci); rewrite Hpci; exact I).
    split; cbn [now lock calls history]; unfold COOLDOWN in *.
    + intros j c Hcj Hin. destruct (lookup_set_pc _ _ _ _ _ _ Hc Hcj) as [[-> _]|[_ Hc']];
        [assumption | eauto].
    + intros e [<-|He]; [simpl; lia | auto].
    + congruence.
    + intros j c wake Hcj Hpc k t Hin.
      destruct (lookup_set_pc _ _ _ _ _ _ Hc Hcj) as [[-> Hp]|[Hne Hc']].
      * rewrite Hp in Hpc. injection Hpc as <-.
        destruct Hin as [[= _ <-]|Hin]; [lia|]. specialize (Hpast _ Hin). simpl in Hpast. lia.
      * assert (lock s = Some j) by (apply (Hown j c Hc'); rewrite Hpc; exact I). congruence.
    + exact Hsp.
  - (* the lock is released *)
    destruct (pc_at_lookup _ _ _ Hcd) as (ci & Hci & Hpci).
    assert (Hli : lock s = Some i) by (apply (Hown i ci Hci); rewrite Hpci; exact I).
    split; cbn [now lock calls history]; unfold COOLDOWN in *; try assumption.
    + intros j c Hcj Hin. destruct (lookup_set_pc _ _ _ _ _ _ Hcd Hcj) as [[-> Hp]|[Hne Hc']].
      * rewrite Hp in Hin. contradiction.
      * specialize (Hown j c Hc' Hin). congruence.
    + intros _ j t Hin. specialize (Hsleep i ci wake Hci Hpci j t Hin). lia.
    + intros j c wake' Hcj Hpc.
      destruct (lookup_set_pc _ _ _ _ _ _ Hcd Hcj) as [[-> Hp]|[_ Hc']]; [congruence|eauto].
Qed.

Lemma reachable_invariant max_workers t0 s :
  reachable max_workers t0 s -> invariant s.
Proof.
  induction 1 as [|s s' _ IH Hstep]; [apply invariant_initial|].
  exact (invariant_step _ _ _ IH Hstep).
Qed.

(** C1. In every state the calls can reach, with any number of workers in the
    pool and in particular with the single one of main.py, at most one call
    is running [fetch_and_store_tweets]: two calls that are both crawling are
    the same call. *)
Theorem at_most_one_crawl max_workers t0 s i j ci cj :
  reachable max_workers t0 s ->
  calls s !! i = Some ci -> call_pc ci = Crawling ->
  calls s !! j = Some cj -> call_pc cj = Crawling ->
  i = j.
Proof.
  intros Hreach Hi Hpi Hj Hpj.
  destruct (reachable_invariant _ _ _ Hreach) as [Hown _ _ _ _].
  assert (Some i = Some j) as [= ->]; [|reflexivity].
  rewrite <- (Hown i ci Hi), <- (Hown j cj Hj); [reflexivity | rewrite Hpj | rewrite Hpi]; exact I.
Qed.

Lemma spaced_split newer : forall older j t2,
  spaced (newer ++ Started j t2 :: older) ->
  forall i t1, In (Ended i t1) older -> t1 + COOLDOWN <= t2.
Proof.
  induction newer as [|e newer IH]; intros older j t2; cbn [app spaced].
  - intros [H _]. exact H.
  - destruct e; [intros [_ H] | intros H]; exact (IH _ _ _ H).
Qed.

(** C4. In every reachable state, a crawl that started at [t2] started at
    least the cool-down after the end [t1] of every crawl that ended before
    it, whichever accounts the two crawls are for and whether the earlier one
    succeeded or failed. *)
Theorem cooldown_between_crawls max_workers t0 s newer older i j t1 t2 :
  reachable max_workers t0 s ->
  history s = (newer ++ Started j t2 :: older)%list ->
  In (Ended i t1) older ->
  t1 + COOLDOWN <= t2.
Proof.
  intros Hreach Hh Hin.
  destruct (reachable_invariant _ _ _ Hreach) as [_ _ _ _ Hsp].
  rewrite Hh in Hsp. exact (spaced_split _ _ _ _ Hsp _ _ Hin).
Qed.

(** While a call crawls or cools down, no other call can take the lock. *)
Lemma lock_held_while_in_lock max_workers t0 s i c :
  reachable max_workers t0 s ->
  calls s !! i = Some c -> in_lock (call_pc c) ->
  lock s <> None.
Proof.
  intros Hreach Hc Hin.
  destruct (reachable_invariant _ _ _ Hreach) as [Hown _ _ _ _].
  rewrite (Hown i c Hc Hin). discriminate.
Qed.

(** The sample state is one the single worker of main.py gets to. *)
Ltac then_step rule :=
  lazymatch goal with
  | H : reachable ?m ?t ?s |- _ =>
      let Hstep := fresh "Hstep" in
      eassert (Hstep : step m s _) by (rule s; first [reflexivity | cbn; lia]);
      apply (reachable_step m t s _ H) in Hstep; clear H; cbv in Hstep
  end.

Lemma two_crawls_reachable : reachable MAX_WORKERS 0 Samples.two_crawls.
Proof.
  pose proof (reachable_initial MAX_WORKERS 0) as H. cbv in H.
  then_step ltac:(fun s => apply (step_submit 1 s "a")).
  then_step ltac:(fun s => apply (step_submit 1 s "b")).
  then_step ltac:(fun s => apply (step_dequeue 1 s 0%nat)).
  then_step ltac:(fun s => apply (step_acquire 1 s 0%nat)).
  then_step ltac:(fun s => apply (step_tick 1 s 5)).
  then_step ltac:(fun s => apply (step_crawl_over 1 s 0%nat)).
  then_step ltac:(fun s => apply (step_tick 1 s 60)).
  then_step ltac:(fun s => apply (step_release 1 s 0%nat 65)).
  then_step ltac:(fun s => apply (step_dequeue 1 s 1%nat)).
  then_step ltac:(fun s => apply (step_acquire 1 s 1%nat)).
  assumption.
Qed.

Lemma at_most_one_crawl_witness : 1%nat = 1%nat.
Proof.
  apply (at_most_one_crawl MAX_WORKERS 0 Samples.two_crawls 1 1
           (mkCall "b" Crawling) (mkCall "b" Crawling) two_crawls_reachable);
    reflexivity.
Defined.

Lemma cooldown_between_crawls_witness : 5 + COOLDOWN <= 65.
Proof.
  apply (cooldown_between_crawls MAX_WORKERS 0 Samples.two_crawls
           [] [Ended 0 5; Started 0 0] 0%nat 1%nat 5 65 two_crawls_reachable eq_refl).
  simpl. tauto.
Defined.

(** *** The staggering *)

(** With two accounts or more, the second is submitted in the same call of
    [auto_fetch_all] as the first, at the same time. *)
Lemma auto_fetch_all_submits_two_at_once st db u0 u1 rest :
  map Store.username (Store.list_accounts db) = u0 :: u1 :: rest ->
  submissions (auto_fetch_all st db) =
  (submissions st ++ [(clock st, u0); (clock st, u1)])%list.
Proof.
  intros Hnames. unfold auto_fetch_all. rewrite Hnames.
  unfold scrape_accounts_sequentially. cbn [lookup list_lookup].
  unfold add_job, submit. cbn [submissions clock]. now rewrite <- app_assoc.
Qed.

(** C5, as the code runs it. A cycle over the three accounts ["a"], ["b"],
    ["c"]: the call of [auto_fetch_all] itself submits ["a"] and ["b"]; with
    the scheduler booted at time 0 the cycle starts at 300, and in its first
    121 seconds the submissions come at the offsets 0 (["a"]), 0 (["b"]),
    60 (["c"]) and 120 (["c"] again), which is not the schedule 0, 60, 120
    with each account once. *)
Theorem stagger_three_accounts :
  submissions (auto_fetch_all (mkClockwork 0 [] []) Samples.three_accounts) =
    [(0, "a"); (0, "b")]
  /\
  offsets_since 300 (run_for 421 (boot 0) Samples.three_accounts) =
    [(0, "a"); (0, "b"); (60, "c"); (120, "c")]
  /\
  offsets_since 300 (run_for 421 (boot 0) Samples.three_accounts) <>
    [(0, "a"); (60, "b"); (120, "c")].
Proof. repeat split; vm_compute; (reflexivity || discriminate). Qed.

End SchedulerFacts.

(* ===================================================================== *)
(** ** More facts about crud/ *)
(* ===================================================================== *)

Module CrudFacts.
Import Store.

Lemma fresh_id_above (ids : list Z) x : In x ids -> x < fresh_id ids.
Proof.
  unfold fresh_id. induction ids as [|y ids IH]; simpl; [intros []|].
  intros [->|Hin]; [lia|]. specialize (IH Hin). lia.
Qed.

Lemma fresh_id_new (ids : list Z) : ~ In (fresh_id ids) ids.
Proof. intros Hin. apply fresh_id_above in Hin. lia. Qed.

Lemma find_app_some {A} (f : A -> bool) (l l' : list A) x :
  List.find f l = Some x -> List.find f (l ++ l') = Some x.
Proof.
  induction l as [|a l IH]; simpl; [discriminate|].
  destruct (f a); [intros H; exact H | exact IH].
Qed.

(** X1. Creating an account under a username that is not taken and looking
    the username up gives the created account back: it carries the username
    and an id above every id in the table; lookups of other usernames are
    not affected. *)
Theorem create_account_lookup (db : DB) (u : string) :
  get_account db u = None ->
  get_account (fst (create_account db u)) u = Some (snd (create_account db u)) /\
  username (snd (create_account db u)) = u /\
  (forall b, In b (accounts db) -> account_id b < account_id (snd (create_account db u))) /\
  tweets (fst (create_account db u)) = tweets db /\
  forall u', u' <> u -> get_account (fst (create_account db u)) u' = get_account db u'.
Proof.
  intros Hnone. split; [now apply IngestFacts.get_account_create|].
  split; [reflexivity|]. split; [|split; [reflexivity|]].
  - intros b Hb. cbn. apply fresh_id_above. now apply in_map.
  - intros u' Hne. unfold get_account, create_account. cbn [fst accounts].
    destruct (List.find _ (accounts db)) as [a|] eqn:Hfind.
    + now apply find_app_some.
    + rewrite (StoreFacts.find_app_none _ _ _ Hfind). cbn.
      destruct (String.eqb_spec u u'); [congruence | reflexivity].
Qed.

Lemma create_account_lookup_witness :
  get_account (fst (create_account Samples.sample_db "esa")) "esa" = Some (mkAccount 2 "esa").
Proof.
  apply (create_account_lookup Samples.sample_db "esa"). reflexivity.
Defined.

(** X2. Storing a tweet makes [tweet_exists] true for its pair (account,
    content) and changes the answer for no other pair. *)
Theorem tweet_exists_after_create (db : DB) (a a' : Account) (c c' : string)
    (ts : option datetime) (now : datetime) :
  tweet_exists (fst (create_tweet db a c ts now)) a' c' =
  tweet_exists db a' c' || (Z.eqb (account_id a) (account_id a') && String.eqb c c').
Proof.
  unfold tweet_exists, create_tweet. cbn [fst tweets].
  destruct (List.find _ (tweets db)) as [t|] eqn:Hfind.
  - now rewrite (find_app_some _ _ _ _ Hfind).
  - rewrite (StoreFacts.find_app_none _ _ _ Hfind). cbn.
    unfold same_pair. cbn.
    destruct (Z.eqb (account_id a) (account_id a')), (String.eqb c c'); reflexivity.
Qed.

(** The timestamp a stored tweet gets: the one given, else the current
    time; it starts unread. *)
Lemma create_tweet_row (db : DB) (a : Account) (c : string) (ts : option datetime)
    (now : datetime) :
  let t := snd (create_tweet db a c ts now) in
  tweets (fst (create_tweet db a c ts now)) = (tweets db ++ [t])%list /\
  content t = c /\ tweet_account_id t = account_id a /\ read t = false /\
  timestamp t = match ts with Some given => given | None => now end /\
  ~ In (tweet_id t) (map tweet_id (tweets db)).
Proof.
  cbn. repeat split; try reflexivity. apply fresh_id_new.
Qed.


Lemma NoDup_map_inj {A B} (f : A -> B) (l : list A) x y :
  NoDup (map f l) -> In x l -> In y l -> f x = f y -> x = y.
Proof.
  induction l as [|a l IH]; simpl; [intros _ []|].
  intros Hnd%NoDup_cons [<-|Hx] [<-|Hy] Heq; destruct Hnd as [Hnotin Hnd].
  - reflexivity.
  - exfalso. apply Hnotin. rewrite Heq. apply list_elem_of_In. now apply in_map.
  - exfalso. apply Hnotin. rewrite <- Heq. apply list_elem_of_In. now apply in_map.
  - now apply IH.
Qed.

Lemma NoDup_map_filter {A B} (f : A -> B) (g : A -> bool) (l : list A) :
  NoDup (map f l) -> NoDup (map f (List.filter g l)).
Proof.
  induction l as [|a l IH]; simpl; [intros H; exact H|].
  intros [Hnotin Hnd]%NoDup_cons. destruct (g a); simpl; [|now apply IH].
  apply NoDup_cons. split; [|now apply IH].
  intros Hin. apply Hnotin. apply list_elem_of_In in Hin. apply list_elem_of_In.
  apply in_map_iff in Hin as (x & Hx & Hin). apply filter_In in Hin as [Hin _].
  rewrite <- Hx. now apply in_map.
Qed.

Lemma filter_all {A} (g : A -> bool) (l : list A) :
  (forall x, In x l -> g x = true) -> List.filter g l = l.
Proof.
  induction l as [|a l IH]; simpl; intros H; [reflexivity|].
  rewrite (H a (or_introl eq_refl)). f_equal. apply IH. intros x Hx. apply H. now right.
Qed.

Lemma NoDup_snoc_fresh {A} (l : list A) x : NoDup l -> ~ In x l -> NoDup (l ++ [x]).
Proof.
  intros Hnd Hx. apply NoDup_app. split; [assumption|]. split; [|apply NoDup_singleton].
  intros y Hy [->|[]]%list_elem_of_In. apply Hx. now apply list_elem_of_In.
Qed.

Lemma get_account_some db u a :
  get_account db u = Some a -> In a (accounts db) /\ username a = u.
Proof.
  unfold get_account. intros [Hin Heq]%find_some. split; [assumption|].
  now apply String.eqb_eq.
Qed.

Lemma get_account_none db u :
  get_account db u = None <-> ~ In u (map username (accounts db)).
Proof.
  unfold get_account. rewrite StoreFacts.find_none_iff. split.
  - intros H (a & <- & Hin)%in_map_iff. specialize (H a Hin).
    now rewrite String.eqb_refl in H.
  - intros H a Hin. apply String.eqb_neq. intros <-. apply H. now apply in_map.
Qed.

Lemma find_filter {A} (f g : A -> bool) (l : list A) :
  (forall x, In x l -> f x = true -> g x = true) ->
  List.find f (List.filter g l) = List.find f l.
Proof.
  induction l as [|a l IH]; intros H; [reflexivity|]. cbn [List.filter List.find].
  assert (IH' : List.find f (List.filter g l) = List.find f l).
  { apply IH. intros x Hx. apply H. now right. }
  destruct (f a) eqn:Hfa.
  - rewrite (H a (or_introl eq_refl) Hfa). cbn [List.find]. now rewrite Hfa.
  - destruct (g a); cbn [List.find]; [rewrite Hfa|]; exact IH'.
Qed.

Lemma delete_account_gone (db : DB) (u : string) :
  consistent db -> get_account (delete_account db u) u = None.
Proof.
  intros [Hids Hnames _ _]. unfold delete_account.
  destruct (get_account db u) as [a|] eqn:Hget; [|assumption].
  destruct (get_account_some _ _ _ Hget) as [Ha Hu].
  apply get_account_none. intros (b & Hb & Hin)%in_map_iff. cbn [accounts] in Hin.
  apply filter_In in Hin as [Hin Hne]. apply negb_true_iff, Z.eqb_neq in Hne. apply Hne.
  f_equal. apply (NoDup_map_inj _ _ _ _ Hnames Hin Ha). congruence.
Qed.

Lemma delete_account_tweets (db : DB) (u : string) (a : Account) (t : Tweet) :
  get_account db u = Some a ->
  In t (tweets (delete_account db u)) -> tweet_account_id t <> account_id a.
Proof.
  intros Hget. unfold delete_account. rewrite Hget. cbn [tweets].
  intros [_ Hne]%filter_In. now apply negb_true_iff, Z.eqb_neq in Hne.
Qed.

(** X3. Unsubscribing takes the account's tweets with it and nothing else: in
    a consistent store, after [delete_account] the username is no longer
    found and lookups of other usernames answer as before; the accounts left
    are the others and the tweets left are those of the other accounts.
    Deleting a username that is not there changes nothing. *)
Theorem delete_account_cascade (db : DB) (u : string) :
  consistent db ->
  get_account (delete_account db u) u = None /\
  (forall u', u' <> u -> get_account (delete_account db u) u' = get_account db u') /\
  match get_account db u with
  | Some a =>
      (forall b, In b (accounts (delete_account db u)) <-> In b (accounts db) /\ b <> a) /\
      (forall t, In t (tweets (delete_account db u)) <->
                 In t (tweets db) /\ tweet_account_id t <> account_id a)
  | None => delete_account db u = db
  end.
Proof.
  intros [Hids Hnames _ _]. unfold delete_account.
  destruct (get_account db u) as [a|] eqn:Hget; [|auto].
  destruct (get_account_some _ _ _ Hget) as [Ha Hu]. cbn [accounts tweets].
  assert (Hacc : forall b, In b (List.filter (fun b => negb (Z.eqb (account_id b) (account_id a)))
                                  (accounts db)) <-> In b (accounts db) /\ b <> a).
  { intros b. rewrite filter_In, negb_true_iff, Z.eqb_neq. split; intros [Hb Hne].
    - split; [assumption|]. intros ->. now apply Hne.
    - split; [assumption|]. intros Heq. apply Hne.
      exact (NoDup_map_inj _ _ _ _ Hids Hb Ha Heq). }
  split; [|split; [|split; [exact Hacc|]]].
  - apply get_account_none. intros (b & Hb & Hin)%in_map_iff. cbn [accounts] in Hin.
    apply Hacc in Hin as [Hin Hne]. apply Hne.
    apply (NoDup_map_inj _ _ _ _ Hnames Hin Ha). congruence.
  - intros u' Hne. unfold get_account. cbn [accounts]. apply find_filter.
    intros b Hb Hname%String.eqb_eq. apply negb_true_iff, Z.eqb_neq. intros Heq.
    assert (b = a) by exact (NoDup_map_inj _ _ _ _ Hids Hb Ha Heq). congruence.
  - intros t. now rewrite filter_In, negb_true_iff, Z.eqb_neq.
Qed.

Lemma sample_db_consistent : consistent Samples.sample_db.
Proof.
  split; cbn.
  - apply (bool_decide_unpack (NoDup [1])). vm_compute. exact I.
  - apply (bool_decide_unpack (NoDup ["nasa"])). vm_compute. exact I.
  - apply (bool_decide_unpack (NoDup [1; 2])). vm_compute. exact I.
  - intros t [<-|[<-|[]]]; eexists; (split; [left; reflexivity | reflexivity]).
Qed.

Lemma delete_account_cascade_witness :
  get_account (delete_account Samples.sample_db "nasa") "nasa" = None.
Proof.
  apply (delete_account_cascade Samples.sample_db "nasa" sample_db_consistent).
Defined.

(** X4. Subscribing and unsubscribing again is a round trip: in a consistent
    store, creating an account under a free username and deleting it gives
    the store back as it was. *)
Theorem create_then_delete_account (db : DB) (u : string) :
  consistent db ->
  get_account db u = None ->
  delete_account (fst (create_account db u)) u = db.
Proof.
  intros [Hids Hnames _ Howned] Hnone. unfold delete_account.
  rewrite (IngestFacts.get_account_create _ _ Hnone).
  unfold create_account. cbn [fst snd accounts tweets account_id].
  rewrite List.filter_app. cbn [List.filter]. rewrite Z.eqb_refl. cbn [negb].
  rewrite app_nil_r, !filter_all; [now destruct db | |].
  - intros t Ht. apply negb_true_iff, Z.eqb_neq.
    destruct (Howned t Ht) as (a & Ha & <-).
    pose proof (fresh_id_above (map account_id (accounts db)) _ (in_map account_id _ _ Ha)).
    lia.
  - intros a Ha. apply negb_true_iff, Z.eqb_neq.
    pose proof (fresh_id_above (map account_id (accounts db)) _ (in_map account_id _ _ Ha)).
    lia.
Qed.

Lemma create_then_delete_account_witness :
  delete_account (fst (create_account Samples.sample_db "esa")) "esa" = Samples.sample_db.
Proof.
  apply (create_then_delete_account Samples.sample_db "esa" sample_db_consistent).
  reflexivity.
Defined.


(** *** The consistency of the tables *)

Lemma create_account_consistent db u :
  consistent db -> get_account db u = None -> consistent (fst (create_account db u)).
Proof.
  intros [Hids Hnames Htids Howned] Hnone. split; cbn [create_account fst accounts tweets].
  - rewrite map_app. apply NoDup_snoc_fresh; [assumption | apply fresh_id_new].
  - rewrite map_app. apply NoDup_snoc_fresh; [assumption | now apply get_account_none].
  - assumption.
  - intros t Ht. destruct (Howned t Ht) as (a & Ha & Heq).
    exists a. split; [apply in_or_app; now left | assumption].
Qed.

Lemma create_tweet_consistent db a c ts now :
  consistent db -> In a (accounts db) -> consistent (fst (create_tweet db a c ts now)).
Proof.
  intros [Hids Hnames Htids Howned] Ha. split; cbn [create_tweet fst accounts tweets];
    try assumption.
  - rewrite map_app. apply NoDup_snoc_fresh; [assumption | apply fresh_id_new].
  - intros t [Ht|[<-|[]]]%in_app_or; [now apply Howned|]. now exists a.
Qed.

Lemma store_new_consistent new : forall db a now count,
  consistent db -> In a (accounts db) ->
  consistent (fst (Scraper.store_new db a new now count)).
Proof.
  induction new as [|item rest IH]; intros db a now count Hc Ha; cbn [Scraper.store_new];
    [assumption|].
  destruct (tweet_exists db a (Scraper.content item)); [now apply IH|].
  apply IH; [now apply create_tweet_consistent | exact Ha].
Qed.

(** X5. The operations keep the tables consistent (unique ids, unique
    usernames, every tweet owned by an account): [create_account] under a
    free username, [create_tweet] for an account of the store,
    [update_read_status], [delete_account], and the ingestion of a batch. *)
Theorem crud_keeps_consistent (db : DB) :
  consistent db ->
  (forall u, get_account db u = None -> consistent (fst (create_account db u))) /\
  (forall a c ts now, In a (accounts db) -> consistent (fst (create_tweet db a c ts now))) /\
  (forall tid r, consistent (fst (update_read_status db tid r))) /\
  (forall u, consistent (delete_account db u)) /\
  (forall u new now, consistent (fst (Scraper.ingest db u new now))).
Proof.
  intros Hc. split; [|split; [|split; [|split]]].
  - intros u. now apply create_account_consistent.
  - intros a c ts now. now apply create_tweet_consistent.
  - intros tid r. unfold update_read_status.
    destruct (fits_int64 tid); [|exact Hc].
    destruct (List.find _ (tweets db)) as [found|]; [|exact Hc].
    destruct Hc as [Hids Hnames Htids Howned]. split; cbn [fst accounts tweets];
      try assumption.
    + rewrite map_map. erewrite map_ext; [exact Htids|].
      intros t. now destruct (Z.eqb (tweet_id t) tid).
    + intros t' (t0 & <- & Ht0)%in_map_iff. destruct (Howned t0 Ht0) as (a & Ha & Heq).
      exists a. split; [assumption|]. now destruct (Z.eqb (tweet_id t0) tid).
  - intros u. unfold delete_account.
    destruct (get_account db u) as [a|] eqn:Hget; [|exact Hc].
    destruct (get_account_some _ _ _ Hget) as [Ha _].
    destruct Hc as [Hids Hnames Htids Howned]. split; cbn [accounts tweets].
    + now apply NoDup_map_filter.
    + now apply NoDup_map_filter.
    + now apply NoDup_map_filter.
    + intros t [Ht Hne]%filter_In. destruct (Howned t Ht) as (b & Hb & Heq).
      exists b. split; [|assumption]. apply filter_In. split; [assumption|].
      now rewrite Heq.
  - intros u new now. unfold Scraper.ingest.
    destruct (get_account db u) as [a|] eqn:Hget.
    + apply store_new_consistent; [assumption|]. now apply get_account_some in Hget.
    + destruct (create_account db u) as [db1 a] eqn:Hcreate.
      apply store_new_consistent.
      * change db1 with (fst (db1, a)). rewrite <- Hcreate.
        now apply create_account_consistent.
      * unfold create_account in Hcreate. injection Hcreate as <- <-.
        cbn [accounts]. apply in_or_app. right. now left.
Qed.

Lemma crud_keeps_consistent_witness :
  consistent (fst (Scraper.ingest Samples.sample_db "esa"
                     [Scraper.mkTweetDict "launch" 5] 0)).
Proof.
  apply (crud_keeps_consistent Samples.sample_db sample_db_consistent).
Defined.

(** *** The read flag *)

Lemma set_read_set_read r r' t : set_read r' (set_read r t) = set_read r' t.
Proof. reflexivity. Qed.

Lemma find_map_id tid (g : Tweet -> Tweet) (l : list Tweet) :
  (forall t, tweet_id (g t) = tweet_id t) ->
  List.find (fun t => Z.eqb (tweet_id t) tid) (map g l) =
  option_map g (List.find (fun t => Z.eqb (tweet_id t) tid) l).
Proof.
  intros Hid. induction l as [|t l IH]; [reflexivity|]. cbn [map List.find].
  rewrite Hid. destruct (Z.eqb (tweet_id t) tid); [reflexivity | exact IH].
Qed.

(** X6. The last write of the read flag wins: marking a tweet and then
    marking it again leaves the store, and returns the row, as the second
    marking alone would. In particular marking twice with the same value is
    the same as marking once. *)
Theorem update_read_status_last_write (db : DB) (tid : Z) (r r' : bool) :
  update_read_status (fst (update_read_status db tid r)) tid r' =
  update_read_status db tid r'.
Proof.
  unfold update_read_status.
  destruct (fits_int64 tid); [|reflexivity].
  destruct (List.find _ (tweets db)) as [t|] eqn:Hfind; cbn [fst].
  - cbn [tweets accounts]. rewrite find_map_id, Hfind.
    2:{ intros t0. now destruct (Z.eqb (tweet_id t0) tid). }
    cbn [option_map]. apply find_some in Hfind as [_ Heq]. rewrite Heq.
    rewrite set_read_set_read, map_map. f_equal. f_equal.
    apply map_ext. intros t0.
    destruct (Z.eqb (tweet_id t0) tid) eqn:H0; cbn; rewrite H0; reflexivity.
  - now rewrite Hfind.
Qed.

(** *** [list_tweets] *)

#[local] Instance newer_first_total : Total newer_first.
Proof. intros a b. unfold newer_first. lia. Qed.

#[local] Instance newer_first_trans : Transitive newer_first.
Proof. intros a b c. unfold newer_first. lia. Qed.

Lemma filter_filter {A} (f g : A -> bool) (l : list A) :
  List.filter g (List.filter f l) = List.filter (fun x => f x && g x) l.
Proof.
  induction l as [|a l IH]; [reflexivity|]. cbn [List.filter].
  destruct (f a); cbn [List.filter andb]; [destruct (g a)|]; now rewrite IH.
Qed.

(** X7. [list_tweets] returns the selected rows, each as often as it is
    stored and no other, newest first: every row of the result is at least
    as new as all rows after it. A missing or empty username selects the
    tweets of all accounts; a read filter of [False] selects the unread
    ones. *)
Theorem list_tweets_selected_newest_first (db : DB) (account_username : option string)
    (r : option bool) :
  list_tweets db account_username r ≡ₚ
    List.filter (selected db account_username r) (tweets db) /\
  StronglySorted newer_first (list_tweets db account_username r) /\
  list_tweets db (Some "") r = list_tweets db None r /\
  (forall t, In t (list_tweets db None (Some false)) <-> In t (tweets db) /\ read t = false).
Proof.
  assert (Hperm : forall au rr, list_tweets db au rr ≡ₚ
                    List.filter (selected db au rr) (tweets db)).
  { intros au rr. unfold list_tweets. rewrite merge_sort_Permutation.
    unfold selected.
    destruct au as [u|]; [destruct (String.eqb u "")|]; destruct rr as [b|];
      rewrite ?filter_filter; cbn [andb];
      try reflexivity;
      try (erewrite filter_ext; [reflexivity|]; intros t; cbn; now rewrite andb_true_r);
      try (rewrite filter_all; [reflexivity | reflexivity]). }
  split; [apply Hperm|]. split; [apply StronglySorted_merge_sort; apply _|].
  split; [reflexivity|].
  intros t. rewrite <- !list_elem_of_In, (Hperm None (Some false)), list_elem_of_In.
  rewrite filter_In. unfold selected. cbn [andb].
  rewrite <- list_elem_of_In. destruct (read t); cbn; intuition congruence.
Qed.


(** *** What an ingestion adds *)

Lemma store_new_added new : forall db a now count,
  exists added,
    tweets (fst (Scraper.store_new db a new now count)) = (tweets db ++ added)%list /\
    snd (Scraper.store_new db a new now count) = (count + length added)%nat /\
    (length added <= length new)%nat /\
    Forall (Scraper.from_batch a new) added.
Proof.
  induction new as [|item rest IH]; intros db a now count; cbn [Scraper.store_new].
  - exists []. rewrite app_nil_r. cbn. split; [reflexivity|]. split; [lia|].
    split; [lia | constructor].
  - destruct (tweet_exists db a (Scraper.content item)).
    + destruct (IH db a now count) as (added & Htw & Hcount & Hlen & Hall).
      exists added. repeat split; [assumption | assumption | cbn; lia |].
      eapply Forall_impl; [exact Hall|].
      intros t (H1 & H2 & it & Hit & H3). repeat split; try assumption.
      exists it. split; [now right | assumption].
    + destruct (IH (fst (create_tweet db a (Scraper.content item)
                           (Some (Scraper.timestamp item)) now)) a now (S count))
        as (added & Htw & Hcount & Hlen & Hall).
      exists (snd (create_tweet db a (Scraper.content item)
                     (Some (Scraper.timestamp item)) now) :: added).
      split; [|split; [|split]].
      * rewrite Htw. cbn [create_tweet fst snd tweets]. now rewrite <- app_assoc.
      * rewrite Hcount. cbn [length]. lia.
      * cbn [length]. lia.
      * constructor.
        -- split; [reflexivity|]. split; [reflexivity|]. exists item.
           split; [now left | split; reflexivity].
        -- eapply Forall_impl; [exact Hall|].
           intros t (H1 & H2 & it & Hit & H3). repeat split; try assumption.
           exists it. split; [now right | assumption].
Qed.

Lemma ingest_added (db : DB) (u : string) (new : list Scraper.TweetDict) (now : datetime) :
  exists added,
    tweets (fst (Scraper.ingest db u new now)) = (tweets db ++ added)%list /\
    snd (Scraper.ingest db u new now) = length added /\
    (length added <= length new)%nat.
Proof.
  unfold Scraper.ingest.
  destruct (get_account db u) as [a|].
  - destruct (store_new_added new db a now 0) as (added & Hadd & Hcount & Hlen & _).
    now exists added.
  - destruct (create_account db u) as [d a] eqn:Hcreate.
    destruct (store_new_added new d a now 0) as (added & Hadd & Hcount & Hlen & _).
    exists added. unfold create_account in Hcreate. injection Hcreate as <- _.
    now repeat split.
Qed.

(** X8. An ingestion only appends: the rows there were stay where they are,
    the count returned is the number of rows appended, which is at most the
    size of the batch, and each appended row belongs to the account of the
    username, is unread and carries the content and timestamp of a batch
    item. An unknown username gets one new account, a known one none. *)
Theorem ingest_appends (db : DB) (u : string) (new : list Scraper.TweetDict)
    (now : datetime) :
  exists a added,
    get_account (fst (Scraper.ingest db u new now)) u = Some a /\
    tweets (fst (Scraper.ingest db u new now)) = (tweets db ++ added)%list /\
    snd (Scraper.ingest db u new now) = length added /\
    (length added <= length new)%nat /\
    Forall (Scraper.from_batch a new) added /\
    accounts (fst (Scraper.ingest db u new now)) =
      match get_account db u with
      | Some _ => accounts db
      | None => (accounts db ++ [a])%list
      end.
Proof.
  unfold Scraper.ingest.
  destruct (get_account db u) as [a|] eqn:Hget.
  - destruct (store_new_added new db a now 0) as (added & Hadd & Hcount & Hlen & Hall).
    exists a, added. unfold get_account in *.
    rewrite IngestFacts.store_new_accounts. repeat split; (assumption || reflexivity).
  - pose proof (IngestFacts.get_account_create db u Hget) as Hnew.
    destruct (create_account db u) as [d a] eqn:Hcreate. cbn [fst snd] in Hnew.
    destruct (store_new_added new d a now 0) as (added & Hadd & Hcount & Hlen & Hall).
    exists a, added. unfold get_account in *.
    rewrite IngestFacts.store_new_accounts.
    unfold create_account in Hcreate. injection Hcreate as <- Ha.
    subst a. cbn [tweets accounts] in *. repeat split; (assumption || reflexivity).
Qed.

(** X9. If no two rows share (account, content) before an ingestion, none do
    after it, whatever the batch repeats. *)
Theorem ingest_keeps_pairs_distinct (db : DB) (u : string) (new : list Scraper.TweetDict)
    (now : datetime) :
  distinct_pairs db -> distinct_pairs (fst (Scraper.ingest db u new now)).
Proof.
  intros Hdb aid c.
  destruct (IngestFacts.ingest_unfold db u new now) as (d & a & Hget & Htw & Hrun).
  rewrite Hrun.
  assert (Hd : forall x y, rows_for d x y = rows_for db x y).
  { intros x y. unfold rows_for. now rewrite Htw. }
  destruct (Z.eq_dec aid (account_id a)) as [->|Hne].
  - rewrite IngestFacts.store_new_rows, Hd. specialize (Hdb (account_id a) c).
    destruct (Nat.eqb (rows_for db (account_id a) c) 0); [|assumption].
    destruct (Scraper.mentions c new); lia.
  - destruct (store_new_added new d a now 0) as (added & Hadd & _ & _ & Hall).
    unfold rows_for at 1. rewrite Hadd, List.filter_app, length_app.
    replace (List.filter (same_pair aid c) added) with (@nil Tweet).
    + specialize (Hdb aid c). unfold rows_for in Hdb. rewrite Htw. cbn [length]. lia.
    + symmetry. clear Hadd. induction Hall as [|t l [Ht _] _ IH]; [reflexivity|].
      cbn [List.filter]. unfold same_pair at 1. rewrite Ht.
      destruct (Z.eqb_spec (account_id a) aid); [congruence | exact IH].
Qed.

Lemma sample_db_distinct_pairs : distinct_pairs Samples.sample_db.
Proof.
  intros aid c. unfold rows_for, Samples.sample_db, same_pair. cbn [tweets List.filter
    tweet_account_id content].
  destruct (Z.eqb 1 aid); cbn [andb length]; [|lia].
  destruct (String.eqb_spec "liftoff" c) as [H1|];
    destruct (String.eqb_spec "landing" c) as [H2|]; cbn [length List.filter];
    try lia. congruence.
Qed.

Lemma ingest_keeps_pairs_distinct_witness :
  distinct_pairs (fst (Scraper.ingest Samples.sample_db "nasa"
                         [Scraper.mkTweetDict "orbit" 8; Scraper.mkTweetDict "orbit" 9] 0)).
Proof.
  apply (ingest_keeps_pairs_distinct Samples.sample_db "nasa"
           [Scraper.mkTweetDict "orbit" 8; Scraper.mkTweetDict "orbit" 9] 0
           sample_db_distinct_pairs).
Defined.

End CrudFacts.

(* ===================================================================== *)
(** ** More facts about [scrape_tweets] and [fetch_and_store_tweets] *)
(* ===================================================================== *)

Module ScraperMore.
Import Scraper.

(** *** The substring test *)

Lemma prefix_spec (needle haystack : string) :
  String.prefix needle haystack = true <-> exists rest, haystack = (needle ++ rest)%string.
Proof.
  revert haystack. induction needle as [|a needle IH]; intros [|b haystack]; cbn.
  - split; [intros _; now exists EmptyString | reflexivity].
  - split; [intros _; now exists (String b haystack) | reflexivity].
  - split; [discriminate | intros [rest [=]]].
  - destruct (Ascii.ascii_dec a b) as [->|Hne].
    + rewrite IH. split; intros [rest Hrest]; exists rest.
      * now rewrite Hrest.
      * now injection Hrest.
    + split; [discriminate | intros [rest [= Heq _]]; congruence].
Qed.

(** X17. The test [needle in haystack] of the redirect check holds exactly
    when the haystack is some text, the needle, and some more text; so a URL
    is taken for a login or challenge page exactly when it has ["login"] or
    ["challenge"] somewhere in it. *)
Theorem contains_substring (needle haystack : string) :
  contains needle haystack = true <->
  exists before rest, haystack = (before ++ needle ++ rest)%string.
Proof.
  induction haystack as [|c haystack IH]; cbn [contains].
  - rewrite orb_false_r, prefix_spec. split.
    + intros [rest Hrest]. now exists EmptyString, rest.
    + intros ([|? ?] & rest & Heq); [now exists rest | discriminate].
  - rewrite orb_true_iff, prefix_spec, IH. split.
    + intros [[rest Hrest] | (before & rest & ->)].
      * now exists EmptyString, rest.
      * now exists (String c before), rest.
    + intros ([|c' before] & rest & Heq).
      * left. now exists rest.
      * right. injection Heq as -> ->. now exists before, rest.
Qed.

Section Facts.
Variable THIS_DIR : string.
Variable strip : string -> string.
Variable fromisoformat : string -> option datetime.

Abbreviation scan_block := (scan_block strip fromisoformat).
Abbreviation scan_blocks := (scan_blocks strip fromisoformat).
Abbreviation loop_body := (loop_body strip fromisoformat).
Abbreviation scroll_loop := (scroll_loop strip fromisoformat).
Abbreviation browse_calls := (browse_calls THIS_DIR strip fromisoformat).
Abbreviation scrape_tweets := (scrape_tweets THIS_DIR strip fromisoformat).
Abbreviation fetch_and_store_tweets := (fetch_and_store_tweets THIS_DIR strip fromisoformat).

(** *** How many items, and where they come from *)

Abbreviation block_item := (block_item strip fromisoformat).
Abbreviation shown := (shown strip fromisoformat).
Abbreviation has_item := (has_item strip fromisoformat).

Lemma scan_block_reads b tweets seen :
  scan_block b tweets seen =
  match block_item b with
  | Raises => Raises
  | Gives None => Gives (tweets, seen)
  | Gives (Some item) =>
      if decide (content item ∈ seen) then Gives (tweets, seen)
      else Gives ((tweets ++ [item])%list, {[content item]} ∪ seen)
  end.
Proof.
  unfold Scraper.scan_block, Scraper.block_item, attempt_bind.
  destruct (query_tweetText b) as [|[te|]]; try reflexivity.
  - destruct (query_time b) as [|[tm|]]; try reflexivity.
    destruct (inner_text te); try reflexivity.
    destruct (get_attribute_datetime tm) as [|[s|]]; try reflexivity.
    destruct (fromisoformat (replace_Z s)); reflexivity.
  - destruct (query_div_lang b) as [|[te|]]; try reflexivity;
      destruct (query_time b) as [|[tm|]]; try reflexivity.
    destruct (inner_text te); try reflexivity.
    destruct (get_attribute_datetime tm) as [|[s|]]; try reflexivity.
    destruct (fromisoformat (replace_Z s)); reflexivity.
Qed.

(** One block adds nothing or one item with a text not seen before, and the
    item is what the block reads. *)
Lemma scan_block_step b tweets seen tweets' seen' :
  scan_block b tweets seen = Gives (tweets', seen') ->
  (tweets' = tweets /\ seen' = seen) \/
  exists item,
    tweets' = (tweets ++ [item])%list /\ seen' = ({[content item]} ∪ seen) /\
    (content item ∉ seen) /\ block_item b = Gives (Some item).
Proof.
  rewrite scan_block_reads.
  destruct (block_item b) as [|[item|]]; [discriminate | | intros [= <- <-]; now left].
  destruct (decide (content item ∈ seen)); intros [= <- <-]; [now left|].
  right. now exists item.
Qed.

Lemma len_app_one {A} (l : list A) x : len (l ++ [x]) = len l + 1.
Proof. unfold len. rewrite length_app. cbn. lia. Qed.

Lemma scan_blocks_bound blocks max_tweets : forall tweets seen,
  len tweets < max_tweets ->
  len (fst (scan_blocks blocks max_tweets tweets seen)) <= max_tweets.
Proof.
  induction blocks as [|b rest IH]; intros tweets seen Hlt; cbn [Scraper.scan_blocks].
  - cbn [fst]. lia.
  - destruct (scan_block b tweets seen) as [|[tweets' seen']] eqn:Hb; [now apply IH|].
    assert (Hlen : len tweets' <= len tweets + 1).
    { destruct (scan_block_step _ _ _ _ _ Hb) as [[-> _]|(item & -> & _)];
        [lia | rewrite len_app_one; lia]. }
    destruct (Z.leb_spec max_tweets (len tweets')); [cbn [fst]; lia | now apply IH].
Qed.

Lemma scroll_loop_bound fuel pg max_tweets : forall i h tweets seen result,
  len tweets <= Z.max 0 max_tweets ->
  scroll_loop fuel pg i max_tweets h tweets seen = Some result ->
  len result <= Z.max 0 max_tweets.
Proof.
  induction fuel as [|fuel IH]; intros i h tweets seen result Hle; cbn [Scraper.scroll_loop].
  - destruct (len tweets <? max_tweets); [discriminate|]. now intros [= <-].
  - destruct (Z.ltb_spec (len tweets) max_tweets) as [Hlt|]; [|now intros [= <-]].
    unfold Scraper.loop_body.
    pose proof (scan_blocks_bound (tweet_blocks (observe pg i)) max_tweets tweets seen Hlt)
      as Hscan.
    destruct (scan_blocks _ _ _ _) as [tweets' seen']. cbn [fst] in Hscan.
    destruct (max_tweets <=? len tweets'); [intros [= <-]; lia|].
    destruct (new_height (observe pg i) =? h); [intros [= <-]; lia|].
    apply IH. lia.
Qed.

(** X10. [scrape_tweets] returns at most [max_tweets] items, and none when
    [max_tweets] is zero or negative. *)
Theorem scrape_tweets_at_most_max fuel pg u max_tweets w w' result :
  scrape_tweets fuel pg u max_tweets w = (w', Ok result) ->
  len result <= Z.max 0 max_tweets /\
  (max_tweets <= 0 -> result = []).
Proof.
  intros Hrun. apply ScraperFacts.scrape_tweets_returns in Hrun.
  assert (Hlen : len result <= Z.max 0 max_tweets).
  { eapply scroll_loop_bound; [|exact Hrun]. unfold len. cbn. lia. }
  split; [exact Hlen|]. intros Hmax. destruct result; [reflexivity|].
  unfold len in Hlen. cbn in Hlen. lia.
Qed.


Lemma scan_blocks_from blocks max_tweets (Q : TweetDict -> Prop) : forall tweets seen,
  (forall t, In t tweets -> Q t) ->
  (forall b item, In b blocks -> block_item b = Gives (Some item) -> Q item) ->
  forall t, In t (fst (scan_blocks blocks max_tweets tweets seen)) -> Q t.
Proof.
  induction blocks as [|b rest IH]; intros tweets seen Hold Hnew; cbn [Scraper.scan_blocks].
  - exact Hold.
  - assert (Hrest : forall b' item, In b' rest -> block_item b' = Gives (Some item) -> Q item).
    { intros b' item Hb'. apply Hnew. now right. }
    destruct (scan_block b tweets seen) as [|[tweets' seen']] eqn:Hb; [now apply IH|].
    assert (Hold' : forall t, In t tweets' -> Q t).
    { destruct (scan_block_step _ _ _ _ _ Hb) as [[-> _]|(item & -> & _ & _ & Hitem)];
        [exact Hold|].
      intros t [Ht|[<-|[]]]%in_app_or; [now apply Hold|].
      apply (Hnew b item); [now left | exact Hitem]. }
    destruct (max_tweets <=? len tweets'); [exact Hold' | now apply IH].
Qed.

Lemma shown_more pg n m t : (n <= m)%nat -> shown pg n t -> shown pg m t.
Proof. intros Hle (i & b & Hi & Hb & Hitem). exists i, b. split; [lia | now split]. Qed.

Lemma scroll_loop_shown fuel pg max_tweets : forall i h tweets seen result,
  (forall t, In t tweets -> shown pg i t) ->
  scroll_loop fuel pg i max_tweets h tweets seen = Some result ->
  forall t, In t result -> shown pg (i + fuel) t.
Proof.
  induction fuel as [|fuel IH]; intros i h tweets seen result Hold; cbn [Scraper.scroll_loop].
  - destruct (len tweets <? max_tweets); [discriminate|]. intros [= <-] t Ht.
    apply (shown_more pg i); [lia | now apply Hold].
  - destruct (len tweets <? max_tweets).
    2:{ intros [= <-] t Ht. apply (shown_more pg i); [lia | now apply Hold]. }
    unfold Scraper.loop_body.
    assert (Hscan : forall t, In t (fst (scan_blocks (tweet_blocks (observe pg i)) max_tweets
                                           tweets seen)) -> shown pg (S i) t).
    { apply scan_blocks_from.
      - intros t Ht. apply (shown_more pg i); [lia | now apply Hold].
      - intros b item Hb Hitem. exists i, b. split; [lia | now split]. }
    destruct (scan_blocks _ _ _ _) as [tweets' seen']. cbn [fst] in Hscan.
    destruct (max_tweets <=? len tweets').
    { intros [= <-] t Ht. apply (shown_more pg (S i)); [lia | now apply Hscan]. }
    destruct (new_height (observe pg i) =? h).
    { intros [= <-] t Ht. apply (shown_more pg (S i)); [lia | now apply Hscan]. }
    intros Hrun t Ht. replace (i + S fuel)%nat with (S i + fuel)%nat by lia.
    exact (IH (S i) _ _ _ _ Hscan Hrun t Ht).
Qed.

(** X11. Nothing is made up: every item [scrape_tweets] returns was read
    from a block the page showed in one of the turns of the loop, with the
    block's stripped text as content and its parsed [datetime] attribute as
    timestamp. *)
Theorem scraped_items_are_shown fuel pg u max_tweets w w' result :
  scrape_tweets fuel pg u max_tweets w = (w', Ok result) ->
  forall t, In t result -> shown pg fuel t.
Proof.
  intros Hrun%ScraperFacts.scrape_tweets_returns t Ht.
  apply (scroll_loop_shown fuel pg max_tweets 0 (initial_height pg) [] ∅ result);
    [intros ? [] | exact Hrun | exact Ht].
Qed.

(** X12. Blocks that read no item, because a call on them raises or because
    the text or the time element is missing, are passed over: a scan of the
    visible blocks ends as the scan of those that read an item. *)
Theorem scan_skips_unreadable_blocks blocks max_tweets tweets seen :
  len tweets < max_tweets ->
  scan_blocks blocks max_tweets tweets seen =
  scan_blocks (List.filter has_item blocks) max_tweets tweets seen.
Proof.
  revert tweets seen.
  induction blocks as [|b rest IH]; intros tweets seen Hlt; [reflexivity|].
  cbn [List.filter Scraper.scan_blocks]. unfold Scraper.has_item at 1.
  rewrite scan_block_reads.
  destruct (block_item b) as [|[item|]] eqn:Hitem.
  - now apply IH.
  - cbn [Scraper.scan_blocks]. rewrite scan_block_reads, Hitem.
    destruct (decide (content item ∈ seen)).
    + destruct (Z.leb_spec max_tweets (len tweets)); [lia | now rewrite IH].
    + destruct (Z.leb_spec max_tweets (len (tweets ++ [item]))); [reflexivity|].
      apply IH. assumption.
  - destruct (Z.leb_spec max_tweets (len tweets)); [lia | now apply IH].
Qed.


(** *** Navigation, diagnostics and refused credentials *)

Lemma written_files_app tr1 tr2 :
  written_files (tr1 ++ tr2) = (written_files tr1 ++ written_files tr2)%list.
Proof. apply flat_map_app. Qed.

Lemma screenshots_app tr1 tr2 :
  screenshots (tr1 ++ tr2) = (screenshots tr1 ++ screenshots tr2)%list.
Proof. apply flat_map_app. Qed.

Lemma gotos_app tr1 tr2 : gotos (tr1 ++ tr2) = (gotos tr1 ++ gotos tr2)%list.
Proof. apply flat_map_app. Qed.

Lemma navigation_events_quiet pg url :
  written_files (navigation_events pg url) = [] /\
  screenshots (navigation_events pg url) = [] /\
  gotos (navigation_events pg url) =
    match goto_first pg with GotoTimeout => [url; url] | _ => [url] end.
Proof. unfold navigation_events. destruct (goto_first pg); repeat split. Qed.

(** The calls inside [async with]: the opening, the navigation, and a tail
    without further navigation. *)
Lemma browse_calls_shape fuel pg u max_tweets :
  exists tail,
    fst (browse_calls fuel pg u max_tweets) =
      ([Launch; NewContext (COOKIES_FILE THIS_DIR); NewPage]
         ++ navigation_events pg (X_SEARCH_URL u) ++ tail)%list /\
    gotos tail = [] /\ ~ In (Sleep 2) tail /\
    match snd (browse_calls fuel pg u max_tweets) with
    | Raise (AuthChallenge url dump_html screenshot_path) =>
        url = page_url pg /\
        dump_html = path_join THIS_DIR (u ++ "_redirect" ++ ".html")%string /\
        screenshot_path = path_join THIS_DIR (u ++ "_redirect" ++ ".png")%string /\
        written_files tail = [dump_html] /\ screenshots tail = [screenshot_path]
    | Raise (NoContentFound dump_html screenshot_path) =>
        dump_html = path_join THIS_DIR (u ++ "_no_tweets" ++ ".html")%string /\
        screenshot_path = path_join THIS_DIR (u ++ "_no_tweets" ++ ".png")%string /\
        written_files tail = [dump_html] /\ screenshots tail = [screenshot_path]
    | _ => written_files tail = [] /\ screenshots tail = []
    end.
Proof.
  unfold Scraper.browse_calls, diagnostics_events.
  destruct (navigation_error pg) as [e|] eqn:Hnav.
  { exists []. cbn [fst snd]. rewrite app_nil_r. split; [reflexivity|]. split; [reflexivity|].
    split; [intros []|].
    destruct (ScraperFacts.navigation_error_kind THIS_DIR strip fromisoformat _ _ Hnav)
      as [-> | ->]; now repeat split. }
  assert (Hquiet : forall tail : list event,
            Forall (fun e => match e with Sleep _ => False | _ => True end) tail ->
            ~ In (Sleep 2) tail).
  { intros tail Hall Hin. rewrite Forall_forall in Hall.
    apply list_elem_of_In in Hin. exact (Hall _ Hin). }
  destruct (contains "login" (page_url pg) || contains "challenge" (page_url pg)).
  { eexists. cbn [fst snd]. rewrite <- app_assoc. split; [reflexivity|].
    split; [reflexivity|]. split; [apply Hquiet; repeat constructor|]. now repeat split. }
  destruct (selector_appears pg).
  2:{ eexists. cbn [fst snd]. rewrite <- app_assoc. split; [reflexivity|].
      split; [reflexivity|]. split; [apply Hquiet; repeat constructor|]. now repeat split. }
  destruct (scroll_loop _ _ _ _ _ _ _); eexists; cbn [fst snd]; rewrite <- app_assoc;
    (split; [reflexivity|]); (split; [reflexivity|]);
    (split; [apply Hquiet; repeat constructor|]); now repeat split.
Qed.

(** X13. The navigation is tried once, and a second time only after a
    timeout: in a run whose credentials load, the [goto] calls are one call
    on the search URL of the username, or two when the first timed out, in
    which case the two-second sleep lies between them; an error that is not
    a timeout is not retried. *)
Theorem navigation_retried_once fuel pg u max_tweets w :
  snd (load_credentials w) = Ok tt ->
  exists evs,
    trace (fst (scrape_tweets fuel pg u max_tweets w)) = (trace w ++ evs)%list /\
    gotos evs = match goto_first pg with
                | GotoTimeout => [X_SEARCH_URL u; X_SEARCH_URL u]
                | _ => [X_SEARCH_URL u]
                end /\
    (In (Sleep 2) evs <-> goto_first pg = GotoTimeout) /\
    (goto_first pg = GotoFailed -> snd (scrape_tweets fuel pg u max_tweets w) = Raise PWError).
Proof.
  intros Hcred. rewrite ScraperFacts.scrape_tweets_calls.
  destruct (load_credentials w) as [w1 r] eqn:Hload. cbn [snd] in Hcred. subst r.
  pose proof (ScraperFacts.load_credentials_trace _ _ _ Hload) as Htr.
  destruct (browse_calls_shape fuel pg u max_tweets) as (tail & Hshape & Hgotos & Hsleep & _).
  eexists. unfold extend. cbn [fst snd trace]. rewrite Htr. split; [reflexivity|].
  rewrite Hshape. split; [|split].
  - rewrite !gotos_app, Hgotos.
    destruct (navigation_events_quiet pg (X_SEARCH_URL u)) as (_ & _ & ->).
    cbn. now destruct (goto_first pg).
  - rewrite !in_app_iff. unfold navigation_events. cbn [In].
    destruct (goto_first pg); split; intros H; try reflexivity; try discriminate;
      try (right; left; right; left; right; left; reflexivity);
      exfalso; repeat (destruct H as [H|H]; try discriminate; try contradiction).
  - intros Hfailed. unfold Scraper.browse_calls, navigation_error. now rewrite Hfailed.
Qed.


(** X14. The files a run writes. Diagnostics are written on the two
    diagnosed failures and never else: a run that raises [AuthChallenge] or
    [NoContentFound] writes the one HTML dump and takes the one screenshot
    the error names ([<username>_redirect] or [<username>_no_tweets],
    [.html] and [.png]); every other run, the successful one included,
    writes no dump and takes no screenshot. The one other file a run writes
    is the credentials file: whatever the outcome, it is rewritten in the
    wrapped form when it held a bare array, and is left as it was
    otherwise. *)
Theorem diagnostics_match_the_failure fuel pg u max_tweets w :
  exists evs,
    trace (fst (scrape_tweets fuel pg u max_tweets w)) = (trace w ++ evs)%list /\
    match snd (scrape_tweets fuel pg u max_tweets w) with
    | Raise (AuthChallenge _ dump_html screenshot_path) =>
        dump_html = path_join THIS_DIR (u ++ "_redirect" ++ ".html")%string /\
        screenshot_path = path_join THIS_DIR (u ++ "_redirect" ++ ".png")%string /\
        written_files evs = [dump_html] /\ screenshots evs = [screenshot_path]
    | Raise (NoContentFound dump_html screenshot_path) =>
        dump_html = path_join THIS_DIR (u ++ "_no_tweets" ++ ".html")%string /\
        screenshot_path = path_join THIS_DIR (u ++ "_no_tweets" ++ ".png")%string /\
        written_files evs = [dump_html] /\ screenshots evs = [screenshot_path]
    | _ => written_files evs = [] /\ screenshots evs = []
    end /\
    cookie_file (fst (scrape_tweets fuel pg u max_tweets w)) =
      match cookie_file w with
      | Some (JSONText (JArray cookies)) => Some (JSONText (storage_state cookies))
      | kept => kept
      end.
Proof.
  assert (Hfile : cookie_file (fst (scrape_tweets fuel pg u max_tweets w)) =
                  match cookie_file w with
                  | Some (JSONText (JArray cookies)) => Some (JSONText (storage_state cookies))
                  | kept => kept
                  end).
  { rewrite ScraperFacts.scrape_tweets_cookie_file. unfold load_credentials.
    destruct (cookie_file w) as [[|data]|] eqn:Hw; cbn [fst]; try exact Hw.
    destruct data as [| | | | |members]; cbn [fst]; try exact Hw; [reflexivity|].
    now destruct (has_key "cookies" members). }
  revert Hfile. generalize (match cookie_file w with
                            | Some (JSONText (JArray cookies)) =>
                                Some (JSONText (storage_state cookies))
                            | kept => kept
                            end).
  intros file'. rewrite ScraperFacts.scrape_tweets_calls.
  destruct (load_credentials w) as [w1 r] eqn:Hload.
  pose proof (ScraperFacts.load_credentials_trace _ _ _ Hload) as Htr.
  assert (Hr : r = Ok tt \/ r = Raise CredentialsMissing \/ r = Raise JSONDecodeError
               \/ r = Raise CredentialsMalformed).
  { revert Hload. unfold load_credentials. repeat case_match; intros [= _ <-]; tauto. }
  destruct Hr as [-> | [-> | [-> | ->]]];
    try (intros Hfile; exists []; cbn [fst snd] in *; rewrite app_nil_r; now repeat split).
  intros Hfile.
  destruct (browse_calls_shape fuel pg u max_tweets) as (tail & Hshape & _ & _ & Htail).
  eexists. unfold extend in *. cbn [fst snd trace] in *. rewrite Htr.
  split; [reflexivity|]. split; [|exact Hfile].
  rewrite Hshape, !written_files_app, !screenshots_app.
  destruct (navigation_events_quiet pg (X_SEARCH_URL u)) as (-> & -> & _).
  cbn [written_files screenshots flat_map app]. rewrite !app_nil_r.
  destruct (snd (browse_calls fuel pg u max_tweets)) as [result|e|]; [exact Htail | | exact Htail].
  destruct e; try exact Htail. exact (proj2 Htail).
Qed.

(** X15. When no tweet container appears in time: with credentials that
    load, a navigation that gets to a page whose URL shows neither ["login"]
    nor ["challenge"], and a selector wait that times out, [scrape_tweets]
    raises [NoContentFound] after exactly these calls: the HTML dump and the
    screenshot named [<username>_no_tweets], then [browser.close()]. *)
Theorem no_content_found_on_selector_timeout fuel pg u max_tweets w :
  snd (load_credentials w) = Ok tt ->
  navigation_succeeds pg = true ->
  contains "login" (page_url pg) = false ->
  contains "challenge" (page_url pg) = false ->
  selector_appears pg = false ->
  let dump_html := path_join THIS_DIR (u ++ "_no_tweets" ++ ".html")%string in
  let screenshot_path := path_join THIS_DIR (u ++ "_no_tweets" ++ ".png")%string in
  scrape_tweets fuel pg u max_tweets w =
    (extend (fst (load_credentials w))
       ([PlaywrightStart; Launch; NewContext (COOKIES_FILE THIS_DIR); NewPage]
          ++ navigation_events pg (X_SEARCH_URL u)
          ++ [WaitForTimeout 5000; WaitForSelector TWEET_SELECTOR; PageContent;
              WriteFile dump_html (page_content pg); Screenshot screenshot_path;
              BrowserClose; PlaywrightStop])%list,
     Raise (NoContentFound dump_html screenshot_path)).
Proof.
  intros Hcred Hnav Hlogin Hchallenge Hsel dump_html screenshot_path.
  rewrite ScraperFacts.scrape_tweets_calls.
  destruct (load_credentials w) as [w1 r]. cbn [snd fst] in *. subst r.
  unfold Scraper.browse_calls, diagnostics_events.
  rewrite (ScraperFacts.navigation_succeeds_no_error _ Hnav), Hlogin, Hchallenge, Hsel.
  cbn [orb fst snd]. subst dump_html screenshot_path.
  f_equal. f_equal. cbn [app]. rewrite <- !app_assoc. reflexivity.
Qed.

(** X16. Refused credentials change nothing. When the credentials file is
    missing, is not JSON, or holds JSON that is neither a list nor a dict
    with a ["cookies"] key, [scrape_tweets] raises the error of that case
    and leaves the world as it found it: no call is made, no file is
    rewritten. These are the only files refused: on a list, and on a dict
    with a ["cookies"] key, the Playwright driver is started. *)
Theorem refused_credentials_change_nothing fuel pg u max_tweets w :
  let run := scrape_tweets fuel pg u max_tweets w in
  let started := exists evs, trace (fst run) = (trace w ++ PlaywrightStart :: evs)%list in
  match cookie_file w with
  | None => run = (w, Raise CredentialsMissing)
  | Some NotJSON => run = (w, Raise JSONDecodeError)
  | Some (JSONText (JArray _)) => started
  | Some (JSONText (JObject members)) =>
      if has_key "cookies" members then started
      else run = (w, Raise CredentialsMalformed)
  | Some (JSONText _) => run = (w, Raise CredentialsMalformed)
  end.
Proof.
  intros run started. subst run started. cbv zeta.
  rewrite ScraperFacts.scrape_tweets_calls. unfold load_credentials.
  destruct (cookie_file w) as [[|data]|]; try reflexivity.
  destruct data as [| | | |items|members]; try reflexivity.
  - eexists. unfold extend. cbn [fst trace app]. reflexivity.
  - destruct (has_key "cookies" members); [|reflexivity].
    eexists. unfold extend. cbn [fst trace app]. reflexivity.
Qed.

(** *** [fetch_and_store_tweets] *)

(** X18. [fetch_and_store_tweets] writes to the database only after a
    successful scrape: when the scrape fails the database is left as it was
    (the account is not created either); when it succeeds, rows are only
    appended, the count returned is the number of rows appended, and it is
    at most [limit]. *)
Theorem fetch_and_store_writes_after_success fuel pg u limit now w db :
  let '(w', db', r) := fetch_and_store_tweets fuel pg u limit now w db in
  match r with
  | Ok count =>
      Z.of_nat count <= Z.max 0 limit /\
      exists added,
        Store.tweets db' = (Store.tweets db ++ added)%list /\ length added = count
  | _ => db' = db
  end.
Proof.
  unfold Scraper.fetch_and_store_tweets.
  destruct (scrape_tweets fuel pg u limit w) as [w' [new|e|]] eqn:Hrun; try reflexivity.
  apply ScraperFacts.scrape_tweets_returns in Hrun.
  assert (Hlen : len new <= Z.max 0 limit).
  { eapply scroll_loop_bound; [|exact Hrun]. unfold len. cbn. lia. }
  destruct (CrudFacts.ingest_added db u new now) as (added & Htw & Hcount & Hle).
  destruct (ingest db u new now) as [db' count]. cbn [fst snd] in *.
  split; [unfold len in Hlen; lia|]. exists added. now split.
Qed.

End Facts.

Lemma scrape_tweets_at_most_max_witness :
  len [mkTweetDict "a" 25] <= Z.max 0 1.
Proof.
  apply (scrape_tweets_at_most_max "/srv" Samples.keep_text Samples.read_date
           5 Samples.feed_page "bob" 1 Samples.ready_world
           (fst (Scraper.scrape_tweets "/srv" Samples.keep_text Samples.read_date
                   5 Samples.feed_page "bob" 1 Samples.ready_world))).
  vm_compute. reflexivity.
Defined.

Lemma scraped_items_are_shown_witness :
  shown Samples.keep_text Samples.read_date Samples.feed_page 5 (mkTweetDict "b" 25).
Proof.
  apply (scraped_items_are_shown "/srv" Samples.keep_text Samples.read_date
           5 Samples.feed_page "bob" 20 Samples.ready_world
           (fst (Scraper.scrape_tweets "/srv" Samples.keep_text Samples.read_date
                   5 Samples.feed_page "bob" 20 Samples.ready_world))
           [mkTweetDict "a" 25; mkTweetDict "b" 25]).
  - vm_compute. reflexivity.
  - right. left. reflexivity.
Defined.

Lemma scan_skips_unreadable_blocks_witness :
  Scraper.scan_blocks Samples.keep_text Samples.read_date
    [Samples.broken_block; Samples.block "a" (Some "2024-01-01T00:00:00Z")] 20 [] ∅ =
  Scraper.scan_blocks Samples.keep_text Samples.read_date
    [Samples.block "a" (Some "2024-01-01T00:00:00Z")] 20 [] ∅.
Proof.
  apply (scan_skips_unreadable_blocks Samples.keep_text Samples.read_date
           [Samples.broken_block; Samples.block "a" (Some "2024-01-01T00:00:00Z")] 20 [] ∅).
  reflexivity.
Defined.

Lemma navigation_retried_once_witness :
  exists evs,
    trace (fst (Scraper.scrape_tweets "/srv" Samples.keep_text Samples.read_date
                  5 Samples.login_page "bob" 20 Samples.ready_world)) = ([] ++ evs)%list /\
    gotos evs = [X_SEARCH_URL "bob"; X_SEARCH_URL "bob"].
Proof.
  destruct (navigation_retried_once "/srv" Samples.keep_text Samples.read_date
              5 Samples.login_page "bob" 20 Samples.ready_world eq_refl)
    as (evs & Htr & Hgotos & _).
  exists evs. split; [exact Htr | exact Hgotos].
Defined.

Lemma no_content_found_on_selector_timeout_witness :
  snd (Scraper.scrape_tweets "/srv" Samples.keep_text Samples.read_date
         5 Samples.empty_page "bob" 20 Samples.ready_world) =
  Raise (NoContentFound "/srv/bob_no_tweets.html" "/srv/bob_no_tweets.png").
Proof.
  rewrite (no_content_found_on_selector_timeout "/srv" Samples.keep_text Samples.read_date
             5 Samples.empty_page "bob" 20 Samples.ready_world);
    reflexivity.
Defined.

(** A missing file, a file that is not JSON, a JSON number and a dict
    without ["cookies"]: each is refused with its own error. *)
Lemma refused_credentials_change_nothing_witness :
  (Scraper.scrape_tweets "/srv" Samples.keep_text Samples.read_date
     5 Samples.feed_page "bob" 20 (mkWorld None []) =
   (mkWorld None [], Raise CredentialsMissing)) /\
  (Scraper.scrape_tweets "/srv" Samples.keep_text Samples.read_date
     5 Samples.feed_page "bob" 20 (mkWorld (Some NotJSON) []) =
   (mkWorld (Some NotJSON) [], Raise JSONDecodeError)) /\
  (Scraper.scrape_tweets "/srv" Samples.keep_text Samples.read_date
     5 Samples.feed_page "bob" 20 (mkWorld (Some (JSONText (JNumber 7))) []) =
   (mkWorld (Some (JSONText (JNumber 7))) [], Raise CredentialsMalformed)) /\
  (Scraper.scrape_tweets "/srv" Samples.keep_text Samples.read_date
     5 Samples.feed_page "bob" 20
     (mkWorld (Some (JSONText (JObject [("origins", JArray [])]))) []) =
   (mkWorld (Some (JSONText (JObject [("origins", JArray [])]))) [],
    Raise CredentialsMalformed)).
Proof.
  split; [|split; [|split]].
  - exact (refused_credentials_change_nothing "/srv" Samples.keep_text Samples.read_date
             5 Samples.feed_page "bob" 20 (mkWorld None [])).
  - exact (refused_credentials_change_nothing "/srv" Samples.keep_text Samples.read_date
             5 Samples.feed_page "bob" 20 (mkWorld (Some NotJSON) [])).
  - exact (refused_credentials_change_nothing "/srv" Samples.keep_text Samples.read_date
             5 Samples.feed_page "bob" 20 (mkWorld (Some (JSONText (JNumber 7))) [])).
  - exact (refused_credentials_change_nothing "/srv" Samples.keep_text Samples.read_date
             5 Samples.feed_page "bob" 20
             (mkWorld (Some (JSONText (JObject [("origins", JArray [])]))) [])).
Defined.

Lemma failed_navigation_calls_witness :
  Scraper.scrape_tweets "/srv" Samples.keep_text Samples.read_date
    5 Samples.unreachable_page "bob" 20 Samples.ready_world =
  (mkWorld (Some (JSONText (storage_state Samples.bare_cookies)))
     [PlaywrightStart; Launch; NewContext "/srv/auth.json"; NewPage;
      Goto "https://x.com/search?q=from%3Abob&f=live"; PlaywrightStop],
   Raise PWError).
Proof.
  apply (ScraperFacts.failed_navigation_calls "/srv" Samples.keep_text Samples.read_date
           5 Samples.unreachable_page "bob" 20 Samples.ready_world PWError);
    reflexivity.
Defined.

End ScraperMore.

(* ===================================================================== *)
(** ** Facts about the endpoints *)
(* ===================================================================== *)

Module ApiFacts.
Import Scraper Api.

(** X20. Subscribing a username that is not yet subscribed answers 200 and
    lists it from then on; subscribing it a second time answers 400 and
    changes nothing. *)
Theorem subscribe_account_once (app : App) (u : string) :
  Store.get_account (db app) u = None ->
  let '(app1, first) := subscribe_account app u in
  status first = 200 /\
  In (JString u) (match body (list_accounts app1) with JArray names => names | _ => [] end) /\
  submitted app1 = submitted app /\
  let '(app2, second) := subscribe_account app1 u in
  status second = 400 /\ app2 = app1.
Proof.
  intros Hnone. unfold subscribe_account at 1. rewrite Hnone.
  pose proof (IngestFacts.get_account_create _ _ Hnone) as Hfound.
  destruct (Store.create_account (db app) u) as [db' acct] eqn:Hcreate.
  cbn [fst snd] in Hfound. cbn [status jsonify].
  split; [reflexivity|]. split; [|split; [reflexivity|]].
  - cbn [list_accounts body jsonify db Store.list_accounts].
    apply in_map_iff. exists acct.
    apply CrudFacts.get_account_some in Hfound as [Hin ->]. now split.
  - unfold subscribe_account. cbn [db]. rewrite Hfound. now split.
Qed.

Lemma subscribe_account_once_witness :
  status (snd (subscribe_account (mkApp Samples.sample_db []) "esa")) = 200.
Proof.
  pose proof (subscribe_account_once (mkApp Samples.sample_db []) "esa" eq_refl) as H.
  destruct (subscribe_account (mkApp Samples.sample_db []) "esa") as [app1 first].
  exact (proj1 H).
Defined.

(** X21. Unsubscribing an unknown username answers 404 and changes nothing;
    unsubscribing a subscribed one, in a consistent store, answers 200,
    after which the username is no longer listed nor found, and no tweet of
    the account is left. *)
Theorem unsubscribe_account_removes (app : App) (u : string) :
  Store.consistent (db app) ->
  let '(app', response) := unsubscribe_account app u in
  submitted app' = submitted app /\
  match Store.get_account (db app) u with
  | None => status response = 404 /\ app' = app
  | Some a =>
      status response = 200 /\
      Store.get_account (db app') u = None /\
      ~ In (JString u)
          (match body (list_accounts app') with JArray names => names | _ => [] end) /\
      forall t, In t (Store.tweets (db app')) -> Store.tweet_account_id t <> Store.account_id a
  end.
Proof.
  intros Hc. unfold unsubscribe_account.
  pose proof (CrudFacts.delete_account_gone (db app) u Hc) as Hgone.
  destruct (Store.get_account (db app) u) as [a|] eqn:Hget; cbn [submitted status jsonify
    with_status db]; [|now repeat split].
  split; [reflexivity|]. split; [reflexivity|]. split; [exact Hgone|]. split.
  - cbn [list_accounts body jsonify db Store.list_accounts].
    intros (b & [= Hb] & Hin)%in_map_iff.
    apply CrudFacts.get_account_none in Hgone. apply Hgone.
    apply in_map_iff. now exists b.
  - intros t. now apply CrudFacts.delete_account_tweets.
Qed.

Lemma unsubscribe_account_removes_witness :
  status (snd (unsubscribe_account (mkApp Samples.sample_db []) "nasa")) = 200.
Proof.
  pose proof (unsubscribe_account_removes (mkApp Samples.sample_db []) "nasa"
                CrudFacts.sample_db_consistent) as H.
  destruct (unsubscribe_account (mkApp Samples.sample_db []) "nasa") as [app' response].
  exact (proj1 (proj2 H)).
Defined.

(** A manual refresh hands exactly one call to the executor when the
    account is subscribed, and none (with a 404) when it is not; it never
    touches the database. *)
Lemma manual_refresh_submits_subscribed (app : App) (u : string) :
  let '(app', response) := manual_refresh app u in
  db app' = db app /\
  match Store.get_account (db app) u with
  | Some _ => status response = 200 /\ submitted app' = (submitted app ++ [u])%list
  | None => status response = 404 /\ submitted app' = submitted app
  end.
Proof.
  unfold manual_refresh. now destruct (Store.get_account (db app) u).
Qed.

(** X22. The status of [mark_read] and [mark_unread] does not tell whether
    the tweet was found. For an id below [2 ^ 63] the view answers 200
    either way: the code meant for the response is given to [jsonify] as a
    second argument and ends up in the body, so that for an id that is not
    stored the body is the array of the error object and the number 404,
    with the database left as it was, and for a stored id the flag is set as
    [update_read_status] sets it. For an id from [2 ^ 63] on the lookup
    raises [OverflowError]: the view returns nothing, the answer is 500 and
    the database is left as it was. *)
Theorem mark_status_ignores_the_lookup (app : App) (tweet_id : N) (r : bool) :
  let '(app', view) := if r then mark_read app tweet_id else mark_unread app tweet_id in
  db app' = fst (Store.update_read_status (db app) (Z.of_N tweet_id) r) /\
  submitted app' = submitted app /\
  if Z.of_N tweet_id <? 2 ^ 63 then
    exists response,
      view = Store.Returns response /\ status_sent view = 200 /\
      match List.find (fun t => Z.eqb (Store.tweet_id t) (Z.of_N tweet_id))
                      (Store.tweets (db app)) with
      | None => body response = JArray [error "Tweet not found"; JNumber 404] /\ app' = app
      | Some _ => exists text, body response = JArray [message text; JNumber 200]
      end
  else view = Store.OverflowError /\ status_sent view = 500 /\ app' = app.
Proof.
  assert (Hfits : Store.fits_int64 (Z.of_N tweet_id) = (Z.of_N tweet_id <? 2 ^ 63)).
  { unfold Store.fits_int64, Store.INT64_MIN, Store.INT64_MAX.
    destruct (Z.ltb_spec (Z.of_N tweet_id) (2 ^ 63)); lia. }
  assert (H : forall done,
    let '(app', view) := mark app tweet_id r done in
    db app' = fst (Store.update_read_status (db app) (Z.of_N tweet_id) r) /\
    submitted app' = submitted app /\
    if Z.of_N tweet_id <? 2 ^ 63 then
      exists response,
        view = Store.Returns response /\ status_sent view = 200 /\
        match List.find (fun t => Z.eqb (Store.tweet_id t) (Z.of_N tweet_id))
                        (Store.tweets (db app)) with
        | None => body response = JArray [error "Tweet not found"; JNumber 404] /\ app' = app
        | Some _ => exists text, body response = JArray [message text; JNumber 200]
        end
    else view = Store.OverflowError /\ status_sent view = 500 /\ app' = app).
  { intros done. unfold mark, Store.update_read_status. rewrite Hfits.
    destruct (Z.of_N tweet_id <? 2 ^ 63).
    - destruct (List.find _ (Store.tweets (db app))); cbn [fst db submitted].
      + split; [reflexivity|]. split; [reflexivity|].
        eexists. split; [reflexivity|]. split; [reflexivity|]. now exists done.
      + split; [reflexivity|]. split; [reflexivity|].
        eexists. split; [reflexivity|]. split; [reflexivity|].
        split; [reflexivity | now destruct app].
    - cbn [fst db submitted]. repeat split. now destruct app. }
  destruct r; [apply (H "Tweet marked as read") | apply (H "Tweet marked as unread")].
Qed.

(** A missing tweet is answered with 200, an id of twenty digits with 500. *)
Example mark_read_sample :
  status_sent (snd (mark_read (mkApp Samples.sample_db []) 7)) = 200 /\
  snd (mark_read (mkApp Samples.sample_db []) 7) =
    Store.Returns (mkResponse 200 (JArray [error "Tweet not found"; JNumber 404])) /\
  status_sent (snd (mark_read (mkApp Samples.sample_db []) (2 ^ 63))) = 500.
Proof. repeat split. Qed.

End ApiFacts.

(* ===================================================================== *)
(** ** More facts about the executor, the lock and the staggering *)
(* ===================================================================== *)

Module ExecutorFacts.
Import Scheduler.

Lemma filter_length_insert {A} (f : A -> bool) (l : list A) : forall i x y,
  l !! i = Some x ->
  (length (List.filter f (<[i:=y]> l)) + (if f x then 1 else 0) =
   length (List.filter f l) + (if f y then 1 else 0))%nat.
Proof.
  induction l as [|a l IH]; intros [|i] x y Hx; try discriminate.
  - injection Hx as ->. cbn. destruct (f x), (f y); cbn; lia.
  - cbn in Hx. cbn. specialize (IH i x y Hx).
    destruct (f a); cbn; [f_equal|]; exact IH.
Qed.

Lemma filter_length_none {A} (f : A -> bool) (l : list A) i x :
  length (List.filter f l) = 0%nat -> l !! i = Some x -> f x = false.
Proof.
  revert i. induction l as [|a l IH]; intros [|i]; try discriminate; cbn.
  - intros Hlen [= ->]. destruct (f x); [discriminate | reflexivity].
  - intros Hlen Hx. destruct (f a); [discriminate|]. exact (IH i Hlen Hx).
Qed.

Lemma set_pc_same s i p q :
  pc_at s i = Some p ->
  exists c, calls s !! i = Some c /\ call_pc c = p /\
            set_pc s i q = <[i := mkCall (call_username c) q]> (calls s) /\
            set_pc s i q !! i = Some (mkCall (call_username c) q).
Proof.
  unfold pc_at, set_pc. destruct (calls s !! i) as [c|] eqn:Hc; [|discriminate].
  intros [= <-]. exists c. repeat split.
  apply list_lookup_insert_eq. eapply lookup_lt_Some; eauto.
Qed.

Lemma set_pc_other s i q j : j <> i -> set_pc s i q !! j = calls s !! j.
Proof.
  intros Hne. unfold set_pc. destruct (calls s !! i); [|reflexivity].
  apply list_lookup_insert_ne. congruence.
Qed.

Lemma set_pc_count s i p q :
  pc_at s i = Some p ->
  (length (List.filter on_worker (set_pc s i q)) + (if on_worker (mkCall "" p) then 1 else 0) =
   length (List.filter on_worker (calls s)) + (if on_worker (mkCall "" q) then 1 else 0))%nat.
Proof.
  intros Hp. destruct (set_pc_same s i p q Hp) as (c & Hc & Hpc & -> & _).
  pose proof (filter_length_insert on_worker (calls s) i c
                (mkCall (call_username c) q) Hc) as H.
  replace (on_worker (mkCall "" p)) with (on_worker c)
    by (unfold on_worker; cbn [call_pc]; now rewrite Hpc).
  exact H.
Qed.

Lemma executor_invariant_initial max_workers t0 : executor_invariant max_workers (initial t0).
Proof.
  split; cbn; try discriminate; try (intros; contradiction); try lia.
  - now left.
  - intros _. split; [discriminate | exact I].
Qed.


(** Case analysis on a lookup after [set_pc]. *)
Ltac at_call Hnew H j i :=
  let Hne := fresh "Hne" in
  destruct (decide (j = i)) as [->|Hne];
  [rewrite Hnew in H; injection H as <-
  |rewrite (set_pc_other _ _ _ _ Hne) in H].

Lemma is_queued_on_worker c : is_queued c = true -> on_worker c = false.
Proof. unfold is_queued, on_worker. now destruct (call_pc c). Qed.

Lemma in_lock_on_worker c : in_lock (call_pc c) -> on_worker c = true.
Proof. unfold in_lock, on_worker. now destruct (call_pc c). Qed.

Lemma in_lock_not_queued c : in_lock (call_pc c) -> is_queued c = false.
Proof. unfold in_lock, is_queued. now destruct (call_pc c). Qed.

Lemma front_not_queued (l : list Call) i j c :
  forallb (fun c => negb (is_queued c)) (take i l) = true ->
  (j < i)%nat -> l !! j = Some c -> is_queued c = false.
Proof.
  intros Hall Hlt Hc. rewrite forallb_forall in Hall.
  apply negb_true_iff, Hall, list_elem_of_In, list_elem_of_lookup.
  exists j. now rewrite lookup_take_lt.
Qed.

Lemma executor_invariant_tick mw s d :
  executor_invariant mw s ->
  executor_invariant mw (mkSystem (now s + d) (lock s) (calls s) (history s)).
Proof. intros [? ? ? ? ? ? ? ?]. split; assumption. Qed.

Lemma executor_invariant_submit mw s u :
  executor_invariant mw s ->
  executor_invariant mw (mkSystem (now s) (lock s) (calls s ++ [mkCall u Queued]) (history s)).
Proof.
  intros [Hpool Hlock Hfifo Hstarted Hrun Htop Hbr Hsingle].
  assert (Hold : forall (j : nat) (c : Call),
                 (calls s ++ [mkCall u Queued])%list !! j = Some c ->
                 calls s !! j = Some c \/ (j = length (calls s) /\ c = mkCall u Queued)).
  { intros j c Hj. apply lookup_app_Some in Hj as [Hj|[Hge Hj]]; [now left|].
    right. apply list_lookup_singleton_Some in Hj as [Hz <-]. split; [lia | reflexivity]. }
  split; cbn [now lock calls history]; try assumption.
  - rewrite List.filter_app, length_app. cbn. lia.
  - intros i Hi. destruct (Hlock i Hi) as (c & Hc & Hin). exists c.
    split; [now apply lookup_app_l_Some | assumption].
  - intros i j ci cj Hlt Hi Hj Hqi.
    destruct (Hold _ _ Hj) as [Hj'|[_ ->]]; [|reflexivity].
    destruct (Hold _ _ Hi) as [Hi'|[-> _]]; [eauto|].
    apply lookup_lt_Some in Hj'. lia.
  - intros i t Hin. destruct (Hstarted i t Hin) as (c & Hc & Hpc). exists c.
    split; [now apply lookup_app_l_Some | assumption].
  - intros i c Hc Hpc. destruct (Hold _ _ Hc) as [Hc'|[_ ->]]; [eauto | discriminate].
  - intros j t older Hh. destruct (Htop j t older Hh) as (c & Hc & Hpc). exists c.
    split; [now apply lookup_app_l_Some | assumption].
  - intros Hone. destruct (Hsingle Hone) as [Hbehind Horder]. split; [|assumption].
    intros i j ci cj Hlt Hi Hj Hwi.
    destruct (Hold _ _ Hj) as [Hj'|[_ ->]]; [|reflexivity].
    destruct (Hold _ _ Hi) as [Hi'|[-> _]]; [eauto|].
    apply lookup_lt_Some in Hj'. lia.
Qed.


Lemma executor_invariant_dequeue mw s i :
  executor_invariant mw s ->
  pc_at s i = Some Queued ->
  forallb (fun c => negb (is_queued c)) (take i (calls s)) = true ->
  (length (List.filter on_worker (calls s)) < mw)%nat ->
  executor_invariant mw (mkSystem (now s) (lock s) (set_pc s i Waiting) (history s)).
Proof.
  intros [Hpool Hlock Hfifo Hstarted Hrun Htop Hbr Hsingle] Hq Hfront Hroom.
  destruct (set_pc_same s i Queued Waiting Hq) as (c0 & Hc0 & Hpc0 & _ & Hnew).
  pose proof (set_pc_count s i Queued Waiting Hq) as Hcount. cbn in Hcount.
  assert (Hkeep : forall k c, calls s !! k = Some c ->
                  (in_lock (call_pc c) \/ call_pc c = Finished) ->
                  set_pc s i Waiting !! k = Some c).
  { intros k c Hk Hpc. rewrite set_pc_other; [assumption|]. intros ->.
    rewrite Hc0 in Hk. injection Hk as <-. rewrite Hpc0 in Hpc.
    destruct Hpc as [[]|]; discriminate. }
  split; cbn [now lock calls history]; try assumption.
  - lia.
  - intros k Hk. destruct (Hlock k Hk) as (c & Hc & Hin). exists c. split; [|assumption].
    apply Hkeep; [assumption | now left].
  - intros a b ca cb Hlt Ha Hb Hqa.
    at_call Hnew Ha a i; [discriminate|].
    destruct (Nat.lt_ge_cases a i) as [Hai|Hai].
    { rewrite (front_not_queued _ _ _ _ Hfront Hai Ha) in Hqa. discriminate. }
    assert (b <> i) by lia. rewrite set_pc_other in Hb by assumption. eauto.
  - intros k t Hin. destruct (Hstarted k t Hin) as (c & Hc & Hpc). exists c. split; auto.
  - intros k c Hk Hpc. at_call Hnew Hk k i; [discriminate | eauto].
  - intros k t older Hh. destruct (Htop k t older Hh) as (c & Hc & Hpc). exists c.
    split; [|assumption]. apply Hkeep; [assumption|]. left. now rewrite Hpc.
  - intros Hone. destruct (Hsingle Hone) as [_ Horder]. split; [|assumption].
    assert (Hnone : length (List.filter on_worker (calls s)) = 0%nat) by lia.
    intros a b ca cb Hlt Ha Hb Hwa.
    at_call Hnew Ha a i.
    + assert (b <> i) by lia. rewrite set_pc_other in Hb by assumption.
      apply (Hfifo i b c0 cb); try assumption. unfold is_queued. now rewrite Hpc0.
    + rewrite (filter_length_none _ _ _ _ Hnone Ha) in Hwa. discriminate.
Qed.

Lemma executor_invariant_acquire mw s i :
  invariant s -> executor_invariant mw s ->
  pc_at s i = Some Waiting ->
  lock s = None ->
  executor_invariant mw
    (mkSystem (now s) (Some i) (set_pc s i Crawling) (Started i (now s) :: history s)).
Proof.
  intros [Hown _ _ _ _] [Hpool Hlock Hfifo Hstarted Hrun Htop Hbr Hsingle] Hw Hfree.
  destruct (set_pc_same s i Waiting Crawling Hw) as (c0 & Hc0 & Hpc0 & _ & Hnew).
  pose proof (set_pc_count s i Waiting Crawling Hw) as Hcount. cbn in Hcount.
  assert (Hnobody : forall k c, calls s !! k = Some c -> ~ in_lock (call_pc c)).
  { intros k c Hk Hin. rewrite (Hown k c Hk Hin) in Hfree. discriminate. }
  assert (Hpaired : paired (history s)).
  { destruct Hbr as [H|(j & t & older & Hh & _)]; [exact H|].
    destruct (Htop j t older Hh) as (c & Hc & Hpc). exfalso.
    apply (Hnobody j c Hc). now rewrite Hpc. }
  assert (Hnot : forall k t, In (Started k t) (history s) -> k <> i).
  { intros k t Hin ->. destruct (Hstarted i t Hin) as (c & Hc & Hpc).
    rewrite Hc0 in Hc. injection Hc as <-. rewrite Hpc0 in Hpc.
    destruct Hpc as [[]|]; discriminate. }
  split; cbn [now lock calls history].
  - lia.
  - intros k [= <-]. eexists. split; [exact Hnew | exact I].
  - intros a b ca cb Hlt Ha Hb Hqa.
    at_call Hnew Ha a i; [discriminate|].
    at_call Hnew Hb b i; [|eauto].
    pose proof (Hfifo a i ca c0 Hlt Ha Hc0 Hqa) as Habs.
    unfold is_queued in Habs. rewrite Hpc0 in Habs. discriminate.
  - intros k t [[= <- _]|Hin].
    + eexists. split; [exact Hnew | left; exact I].
    + destruct (Hstarted k t Hin) as (c & Hc & Hpc). exists c. split; [|assumption].
      rewrite set_pc_other; [assumption | exact (Hnot k t Hin)].
  - intros k c Hk Hpc. at_call Hnew Hk k i.
    + now exists (now s), (history s).
    + exfalso. apply (Hnobody k c Hk). now rewrite Hpc.
  - intros j t older [= <- _ _]. eexists. split; [exact Hnew | reflexivity].
  - right. now exists i, (now s), (history s).
  - intros Hone. destruct (Hsingle Hone) as [Hbehind Horder]. split.
    + intros a b ca cb Hlt Ha Hb Hwa.
      assert (Hwa' : exists ca', calls s !! a = Some ca' /\ on_worker ca' = true).
      { at_call Hnew Ha a i; [|now exists ca].
        exists c0. split; [assumption|]. unfold on_worker. now rewrite Hpc0. }
      destruct Hwa' as (ca' & Ha' & Hwa').
      at_call Hnew Hb b i; [|eauto].
      pose proof (Hbehind a i ca' c0 Hlt Ha' Hc0 Hwa') as Habs.
      unfold is_queued in Habs. rewrite Hpc0 in Habs. discriminate.
    + cbn [in_call_order]. split; [|assumption].
      intros k t Hin. pose proof (Hnot k t Hin) as Hne.
      destruct (Hstarted k t Hin) as (c & Hc & Hpc).
      destruct (Nat.lt_ge_cases k i) as [Hlt|Hge]; [assumption|]. exfalso.
      assert (Hik : (i < k)%nat) by lia.
      assert (Hw0 : on_worker c0 = true) by (unfold on_worker; now rewrite Hpc0).
      pose proof (Hbehind i k c0 c Hik Hc0 Hc Hw0) as Habs.
      unfold is_queued in Habs.
      destruct Hpc as [Hpc|Hpc]; destruct (call_pc c); try discriminate; contradiction.
Qed.


Lemma executor_invariant_crawl_over mw s i :
  invariant s -> executor_invariant mw s ->
  pc_at s i = Some Crawling ->
  executor_invariant mw
    (mkSystem (now s) (lock s) (set_pc s i (CoolingDown (now s + COOLDOWN)))
              (Ended i (now s) :: history s)).
Proof.
  intros [Hown Hpast _ _ _] [Hpool Hlock Hfifo Hstarted Hrun Htop Hbr Hsingle] Hc.
  destruct (set_pc_same s i Crawling (CoolingDown (now s + COOLDOWN)) Hc)
    as (c0 & Hc0 & Hpc0 & _ & Hnew).
  pose proof (set_pc_count s i Crawling (CoolingDown (now s + COOLDOWN)) Hc) as Hcount.
  cbn in Hcount.
  assert (Hmine : lock s = Some i) by (apply (Hown i c0 Hc0); now rewrite Hpc0).
  assert (Hq0 : is_queued c0 = false) by (unfold is_queued; now rewrite Hpc0).
  assert (Hw0 : on_worker c0 = true) by (unfold on_worker; now rewrite Hpc0).
  split; cbn [now lock calls history].
  - lia.
  - intros k Hk. rewrite Hmine in Hk. injection Hk as <-.
    eexists. split; [exact Hnew | exact I].
  - intros a b ca cb Hlt Ha Hb Hqa.
    at_call Hnew Ha a i; [discriminate|].
    at_call Hnew Hb b i; [|eauto].
    rewrite (Hfifo a i ca c0 Hlt Ha Hc0 Hqa) in Hq0. discriminate.
  - intros k t [[=]|Hin]. destruct (Hstarted k t Hin) as (c & Hck & Hpc).
    destruct (decide (k = i)) as [->|Hne].
    + eexists. split; [exact Hnew | left; exact I].
    + exists c. split; [now rewrite set_pc_other | assumption].
  - intros k c Hk Hpc. at_call Hnew Hk k i; [discriminate|]. exfalso.
    assert (lock s = Some k) by (apply (Hown k c Hk); now rewrite Hpc). congruence.
  - intros j t older [=].
  - left. destruct (Hrun i c0 Hc0 Hpc0) as (t & older & Hh & Hp). rewrite Hh.
    cbn [paired]. split; [reflexivity|]. split; [|assumption].
    apply (Hpast (Started i t)). rewrite Hh. now left.
  - intros Hone. destruct (Hsingle Hone) as [Hbehind Horder]. split; [|assumption].
    intros a b ca cb Hlt Ha Hb Hwa.
    assert (Hwa' : exists ca', calls s !! a = Some ca' /\ on_worker ca' = true).
    { at_call Hnew Ha a i; [now exists c0 | now exists ca]. }
    destruct Hwa' as (ca' & Ha' & Hwa').
    at_call Hnew Hb b i; [|eauto].
    rewrite (Hbehind a i ca' c0 Hlt Ha' Hc0 Hwa') in Hq0. discriminate.
Qed.

Lemma executor_invariant_release mw s i wake :
  invariant s -> executor_invariant mw s ->
  pc_at s i = Some (CoolingDown wake) ->
  executor_invariant mw (mkSystem (now s) None (set_pc s i Finished) (history s)).
Proof.
  intros [Hown _ _ _ _] [Hpool Hlock Hfifo Hstarted Hrun Htop Hbr Hsingle] Hcd.
  destruct (set_pc_same s i (CoolingDown wake) Finished Hcd) as (c0 & Hc0 & Hpc0 & _ & Hnew).
  pose proof (set_pc_count s i (CoolingDown wake) Finished Hcd) as Hcount. cbn in Hcount.
  assert (Hq0 : is_queued c0 = false) by (unfold is_queued; now rewrite Hpc0).
  assert (Hw0 : on_worker c0 = true) by (unfold on_worker; now rewrite Hpc0).
  split; cbn [now lock calls history]; try assumption.
  - lia.
  - discriminate.
  - intros a b ca cb Hlt Ha Hb Hqa.
    at_call Hnew Ha a i; [discriminate|].
    at_call Hnew Hb b i; [|eauto].
    rewrite (Hfifo a i ca c0 Hlt Ha Hc0 Hqa) in Hq0. discriminate.
  - intros k t Hin. destruct (Hstarted k t Hin) as (c & Hck & Hpc).
    destruct (decide (k = i)) as [->|Hne].
    + eexists. split; [exact Hnew | now right].
    + exists c. split; [now rewrite set_pc_other | assumption].
  - intros k c Hk Hpc. at_call Hnew Hk k i; [discriminate | eauto].
  - intros j t older Hh. destruct (Htop j t older Hh) as (c & Hcj & Hpc). exists c.
    split; [|assumption]. rewrite set_pc_other; [assumption|]. intros ->.
    rewrite Hc0 in Hcj. injection Hcj as <-. congruence.
  - intros Hone. destruct (Hsingle Hone) as [Hbehind Horder]. split; [|assumption].
    intros a b ca cb Hlt Ha Hb Hwa.
    at_call Hnew Ha a i; [discriminate|].
    at_call Hnew Hb b i; [|eauto].
    rewrite (Hbehind a i ca c0 Hlt Ha Hc0 Hwa) in Hq0. discriminate.
Qed.

Lemma reachable_executor_invariant max_workers t0 s :
  reachable max_workers t0 s -> executor_invariant max_workers s.
Proof.
  induction 1 as [|s s' Hreach IH Hstep]; [apply executor_invariant_initial|].
  pose proof (SchedulerFacts.reachable_invariant _ _ _ Hreach) as Hinv.
  destruct Hstep.
  - now apply executor_invariant_tick.
  - now apply executor_invariant_submit.
  - now apply executor_invariant_dequeue.
  - now apply executor_invariant_acquire.
  - now apply executor_invariant_crawl_over.
  - now apply (executor_invariant_release _ _ _ wake).
Qed.

(** The executor never runs more calls than it has workers: in every
    reachable state the calls that have left the queue and not yet returned
    are at most [max_workers]. *)
Lemma pool_never_exceeded max_workers t0 s :
  reachable max_workers t0 s ->
  (length (List.filter on_worker (calls s)) <= max_workers)%nat.
Proof. intros Hreach. apply (reachable_executor_invariant _ _ _ Hreach). Qed.

(** X23. With the single worker of main.py the lock is never waited for:
    whenever a call stands at [with scrape_lock], the lock is free. *)
Theorem single_worker_never_waits t0 s i c :
  reachable 1 t0 s ->
  calls s !! i = Some c -> call_pc c = Waiting ->
  lock s = None.
Proof.
  intros Hreach Hc Hpc.
  destruct (reachable_executor_invariant _ _ _ Hreach) as [_ Hlock _ _ _ _ _ Hsingle].
  destruct (Hsingle eq_refl) as [Hbehind _].
  destruct (lock s) as [j|] eqn:Hl; [|reflexivity]. exfalso.
  destruct (Hlock j eq_refl) as (cj & Hcj & Hin).
  assert (Hwi : on_worker c = true) by (unfold on_worker; now rewrite Hpc).
  pose proof (in_lock_on_worker _ Hin) as Hwj.
  pose proof (in_lock_not_queued _ Hin) as Hqj.
  assert (Hqi : is_queued c = false) by (unfold is_queued; now rewrite Hpc).
  destruct (Nat.lt_trichotomy i j) as [Hlt|[->|Hgt]].
  - rewrite (Hbehind i j c cj Hlt Hc Hcj Hwi) in Hqj. discriminate.
  - rewrite Hc in Hcj. injection Hcj as <-. rewrite Hpc in Hin. contradiction.
  - rewrite (Hbehind j i cj c Hgt Hcj Hc Hwj) in Hqi. discriminate.
Qed.

Lemma in_call_order_split newer : forall older j t2,
  in_call_order (newer ++ Started j t2 :: older) ->
  forall i t1, In (Started i t1) older -> (i < j)%nat.
Proof.
  induction newer as [|e newer IH]; intros older j t2; cbn [app in_call_order].
  - intros [H _]. exact H.
  - destruct e; [intros [_ H] | intros H]; exact (IH _ _ _ H).
Qed.

(** X24. With the single worker, crawls start in the order in which the calls
    were submitted: a crawl that started before another belongs to an
    earlier call. *)
Theorem crawls_start_in_call_order t0 s newer older i j t1 t2 :
  reachable 1 t0 s ->
  history s = (newer ++ Started j t2 :: older)%list ->
  In (Started i t1) older ->
  (i < j)%nat.
Proof.
  intros Hreach Hh Hin.
  destruct (reachable_executor_invariant _ _ _ Hreach) as [_ _ _ _ _ _ _ Hsingle].
  destruct (Hsingle eq_refl) as [_ Horder]. rewrite Hh in Horder.
  exact (in_call_order_split _ _ _ _ Horder _ _ Hin).
Qed.

(** X25. Crawls do not interleave, with any number of workers: the history of
    a reachable state is a sequence of finished crawls, each a start
    followed by the end of the same call no earlier than the start, with at
    most one crawl still running after them. *)
Theorem crawls_do_not_interleave max_workers t0 s :
  reachable max_workers t0 s -> bracketed (history s).
Proof. intros Hreach. apply (reachable_executor_invariant _ _ _ Hreach). Qed.

Lemma one_waiting_reachable : reachable 1 0 Samples.one_waiting.
Proof.
  pose proof (reachable_initial 1 0) as H. cbv in H.
  SchedulerFacts.then_step ltac:(fun s => apply (step_submit 1 s "a")).
  SchedulerFacts.then_step ltac:(fun s => apply (step_dequeue 1 s 0%nat)).
  assumption.
Qed.

Lemma single_worker_never_waits_witness : lock Samples.one_waiting = None.
Proof.
  apply (single_worker_never_waits 0 Samples.one_waiting 0 (mkCall "a" Waiting)
           one_waiting_reachable); reflexivity.
Defined.

Lemma crawls_start_in_call_order_witness : (0 < 1)%nat.
Proof.
  apply (crawls_start_in_call_order 0 Samples.two_crawls
           [] [Ended 0 5; Started 0 0] 0%nat 1%nat 0 65
           SchedulerFacts.two_crawls_reachable eq_refl).
  right. left. reflexivity.
Defined.

Lemma crawls_do_not_interleave_witness : bracketed (history Samples.two_crawls).
Proof.
  apply (crawls_do_not_interleave 1 0 Samples.two_crawls SchedulerFacts.two_crawls_reachable).
Defined.


(** *** The job store and the staggering *)

Lemma add_job_ids_unique st f secs i :
  job_ids_unique st -> job_ids_unique (add_job st f secs i).
Proof.
  unfold job_ids_unique, add_job. cbn [jobs]. intros Hnd.
  rewrite map_app. change (map id [mkJob i f secs (clock st + secs)]) with [i].
  apply NoDup_app. split; [now apply CrudFacts.NoDup_map_filter|].
  split; [|apply NoDup_singleton].
  intros x Hx Hxi%list_elem_of_In. destruct Hxi as [Hxi|[]]. subst x.
  apply list_elem_of_In, in_map_iff in Hx as (j & Hj & Hin).
  apply filter_In in Hin as [_ Hne]. rewrite Hj in Hne.
  destruct i; cbn in Hne; [discriminate|]. now rewrite Nat.eqb_refl in Hne.
Qed.

Lemma run_func_ids_unique st db f :
  job_ids_unique st -> job_ids_unique (run_func st db f).
Proof.
  intros Hnd. destruct f as [|usernames index]; cbn [run_func].
  - unfold auto_fetch_all. destruct (map _ _) as [|first rest]; [assumption|].
    unfold scrape_accounts_sequentially. destruct (_ !! 1%nat); [|assumption].
    now apply add_job_ids_unique.
  - unfold scrape_accounts_sequentially. destruct (usernames !! index); [|assumption].
    now apply add_job_ids_unique.
Qed.

Lemma process_jobs_ids_unique st db :
  job_ids_unique st -> job_ids_unique (process_jobs st db).
Proof.
  intros Hnd. unfold process_jobs.
  set (start := mkClockwork _ _ _).
  assert (Hstart : job_ids_unique start).
  { unfold job_ids_unique, start. cbn [jobs]. rewrite map_map.
    erewrite map_ext; [exact Hnd|]. intros j. now destruct (is_due (clock st) j). }
  clearbody start. revert start Hstart.
  induction (List.filter (is_due (clock st)) (jobs st)) as [|j due IH]; intros start Hstart;
    [assumption|].
  cbn [fold_left]. apply IH. now apply run_func_ids_unique.
Qed.

(** The job store never holds two jobs under one id, each [add_job]
    replacing the job that had its id. *)
Lemma job_ids_stay_unique (t0 : Z) (db : Store.DB) (seconds : nat) :
  job_ids_unique (run_for seconds (boot t0) db).
Proof.
  assert (Hboot : job_ids_unique (boot t0)).
  { unfold boot. apply add_job_ids_unique. constructor. }
  revert Hboot. generalize (boot t0).
  induction seconds as [|n IH]; intros st Hst; [assumption|].
  cbn [run_for]. apply IH. unfold job_ids_unique. cbn [jobs].
  now apply process_jobs_ids_unique.
Qed.

(** X27. What a cycle start does at once: [auto_fetch_all] submits the first
    two accounts of the list (the first alone when there is only one, none
    when there is none) at the time of the call, and nothing else; with two
    accounts or more it leaves one job, [staggered_scrape_1], due 60 seconds
    later, that goes on from the third account. *)
Theorem auto_fetch_all_at_once (st : Clockwork) (db : Store.DB) :
  let usernames := map Store.username (Store.list_accounts db) in
  submissions (auto_fetch_all st db) =
    (submissions st ++ map (fun u => (clock st, u)) (take 2 usernames))%list /\
  clock (auto_fetch_all st db) = clock st /\
  jobs (auto_fetch_all st db) =
    match usernames with
    | _ :: _ :: _ =>
        (List.filter (fun j => negb (job_id_eqb (id j) (staggered_scrape 1))) (jobs st)
           ++ [mkJob (staggered_scrape 1) (ScrapeFrom usernames 2) 60 (clock st + 60)])%list
    | _ => jobs st
    end.
Proof.
  intros usernames. unfold auto_fetch_all. fold usernames.
  destruct usernames as [|u0 [|u1 rest]]; cbn.
  - now rewrite app_nil_r.
  - repeat split.
  - rewrite <- app_assoc. repeat split.
Qed.

End ExecutorFacts.

(* ===================================================================== *)
(** ** The size of the job store *)
(* ===================================================================== *)

Module JobFacts.
Import Scheduler.

Lemma add_job_tidy usernames st f secs i :
  tidy usernames st ->
  job_of_cycle usernames (mkJob i f secs (clock st + secs)) ->
  tidy usernames (add_job st f secs i).
Proof.
  intros [Hnd Hall] Hnew. split; [now apply ExecutorFacts.add_job_ids_unique|].
  unfold add_job. cbn [jobs]. apply Forall_app. split; [|now constructor].
  rewrite Forall_forall in *. intros j Hj%list_elem_of_In. apply filter_In in Hj as [Hj _].
  apply Hall. now apply list_elem_of_In.
Qed.

Lemma scrape_accounts_sequentially_tidy usernames st index :
  (1 <= index)%nat ->
  tidy usernames st -> tidy usernames (scrape_accounts_sequentially st usernames index).
Proof.
  intros Hpos Ht. unfold scrape_accounts_sequentially.
  destruct (usernames !! index) as [u|] eqn:Hu; [|assumption].
  apply add_job_tidy; [exact Ht|]. right. exists index.
  apply lookup_lt_Some in Hu. repeat split; [assumption | lia].
Qed.

Lemma run_func_tidy db st j :
  let usernames := map Store.username (Store.list_accounts db) in
  job_of_cycle usernames j ->
  tidy usernames st -> tidy usernames (run_func st db (job_func j)).
Proof.
  intros usernames [[_ ->]|(k & Hk & _ & ->)] Ht; cbn [run_func].
  - unfold auto_fetch_all. fold usernames. destruct usernames as [|first rest] eqn:Hus;
      [assumption|]. rewrite <- Hus in *.
    apply (scrape_accounts_sequentially_tidy usernames (submit st first) 1); [lia | exact Ht].
  - apply scrape_accounts_sequentially_tidy; [lia | exact Ht].
Qed.


Lemma process_jobs_tidy db st :
  let usernames := map Store.username (Store.list_accounts db) in
  tidy usernames st -> tidy usernames (process_jobs st db).
Proof.
  intros usernames [Hnd Hall]. unfold process_jobs.
  set (start := mkClockwork _ _ _).
  assert (Hstart : tidy usernames start).
  { split.
    - unfold job_ids_unique, start. cbn [jobs]. rewrite map_map.
      erewrite map_ext; [exact Hnd|]. intros j. now destruct (is_due (clock st) j).
    - unfold start. cbn [jobs]. apply Forall_fmap. eapply Forall_impl; [exact Hall|].
      intros j Hj. cbn. now destruct (is_due (clock st) j). }
  assert (Hdue : Forall (job_of_cycle usernames) (List.filter (is_due (clock st)) (jobs st))).
  { rewrite Forall_forall in *. intros j Hj%list_elem_of_In. apply filter_In in Hj as [Hj _].
    apply Hall. now apply list_elem_of_In. }
  clearbody start. revert start Hstart.
  induction Hdue as [|j due Hj _ IH]; intros start Hstart; [assumption|].
  cbn [fold_left]. apply IH. now apply run_func_tidy.
Qed.

Lemma run_for_tidy db seconds : forall st,
  let usernames := map Store.username (Store.list_accounts db) in
  tidy usernames st -> tidy usernames (run_for seconds st db).
Proof.
  induction seconds as [|n IH]; intros st usernames Ht; [assumption|].
  cbn [run_for]. apply IH. exact (process_jobs_tidy db st Ht).
Qed.

(** X26. The job store stays small: while the accounts do not change, the
    scheduler started by main.py never holds two jobs under one id, and
    never more jobs than there are accounts (one job when there is no
    account), however long it runs and however many cycles overlap. *)
Theorem job_store_bounded (t0 : Z) (db : Store.DB) (seconds : nat) :
  let st := run_for seconds (boot t0) db in
  NoDup (map id (jobs st)) /\
  (length (jobs st) <= Nat.max 1 (length (Store.list_accounts db)))%nat.
Proof.
  intros st. set (usernames := map Store.username (Store.list_accounts db)).
  assert (Ht : tidy usernames st).
  { apply run_for_tidy. split.
    - unfold boot. apply ExecutorFacts.add_job_ids_unique. constructor.
    - unfold boot, add_job. cbn. constructor; [|constructor]. now left. }
  destruct Ht as [Hnd Hall]. split; [exact Hnd|].
  set (ids := auto_fetch_job :: map staggered_scrape (seq 1 (length usernames - 1))).
  assert (Hincl : incl (map id (jobs st)) ids).
  { intros i (j & <- & Hj)%in_map_iff. rewrite Forall_forall in Hall.
    destruct (Hall j) as [[-> _]|(k & Hk & -> & _)]; [now apply list_elem_of_In | now left |].
    right. apply in_map, in_seq. lia. }
  apply NoDup_ListNoDup in Hnd.
  pose proof (NoDup_incl_length Hnd Hincl) as Hlen.
  rewrite length_map in Hlen. unfold ids in Hlen. cbn [length] in Hlen.
  rewrite length_map, length_seq in Hlen. unfold usernames in Hlen.
  rewrite length_map in Hlen. lia.
Qed.

End JobFacts.
